(** * Verification of the table loader and the retrying inference client

    The development embeds [main.go]: [CsvToSlice] (the CSV-to-table
    transform) and [ConnectAIModel] (the bounded retry loop around the
    remote table-question-answering endpoint), together with the parts of
    the Go standard library whose behaviour decides what the two functions
    do: [encoding/csv]'s [Reader] with the options [csv.NewReader] sets,
    [encoding/json]'s rendering of the request payload, the conversion of a
    [float64] to a [time.Duration], and the one-shot nature of the readers
    that carry an HTTP request or response body.

    Go strings are byte sequences: they are modelled by [string], whose
    characters are the 256 byte values. *)

From Stdlib Require Import ZArith NArith Ascii String List Lia.
From Stdlib Require Import Floats.SpecFloat.
From stdpp Require Import base option list gmap strings sorting pretty.

(** ** Errors and results *)

(** The [Err] field of a [*csv.ParseError]. *)
Inductive csvErr : Type :=
| ErrBareQuote
| ErrQuote
| ErrFieldCount.

(** The values of Go's [error] interface that the program can return. *)
Inductive error : Type :=
| CsvParseError (e : csvErr)
    (* the [*csv.ParseError] of [reader.ReadAll] *)
| NoDataFound
    (* [errors.New("no data found")] *)
| TransportError (msg : string)
    (* the error of [c.Client.Do] *)
| DecodeError
    (* the error of a JSON decoder *)
| StatusError (status body : string)
    (* "failed to connect to AI model, status: %s, response: %s" *)
| MaxRetriesReached.
    (* "max retries reached, failed to connect to AI model" *)

(** A Go [(value, error)] pair of which one side is meaningful. *)
Inductive Result (A : Type) : Type :=
| Ok (a : A)
| Err (e : error).
Arguments Ok {A} a.
Arguments Err {A} e.

(** ** Strings *)

(** [strings.Join(parts, sep)] *)
Fixpoint join (sep : string) (parts : list string) : string :=
  match parts with
  | [] => EmptyString
  | [p] => p
  | p :: ps => p +:+ sep +:+ join sep ps
  end.

(** ** [encoding/csv] *)

(** The reader that [csv.NewReader] returns: [Comma] is a comma, there is no
    [Comment] rune, [LazyQuotes] and [TrimLeadingSpace] are off and
    [FieldsPerRecord] is 0.  Positions inside a [*csv.ParseError] are left
    out; its [Err] field is kept. *)
Module csv.

Definition LF : ascii := "010"%char.
Definition CR : ascii := "013"%char.
Definition Quote : ascii := "034"%char.
Definition Comma : ascii := ","%char.

(** The slices that successive [bufio.Reader.ReadSlice('\n')] calls return
    before the reader is exhausted: each ends with its line feed, but for a
    last one that the end of the input cuts short. *)
Fixpoint readSlices (s : string) : list string :=
  match s with
  | EmptyString => []
  | String c s' =>
      if Ascii.eqb c LF then String c EmptyString :: readSlices s'
      else match readSlices s' with
           | [] => [String c EmptyString]
           | p :: ps => String c p :: ps
           end
  end.

(** What [readLine] makes of one slice: a carriage return before the end of
    the input is dropped, and a final "\r\n" becomes "\n". *)
Fixpoint normLine (p : string) : string :=
  match p with
  | EmptyString => EmptyString
  | String c rest =>
      match rest with
      | EmptyString => if Ascii.eqb c CR then EmptyString else p
      | String d EmptyString =>
          if Ascii.eqb c CR && Ascii.eqb d LF then rest
          else String c (normLine rest)
      | _ => String c (normLine rest)
      end
  end.

(** The lines [readLine] hands out, in order, before it reports [io.EOF]. *)
Definition readLines (data : string) : list string :=
  normLine <$> readSlices data.

(** [lengthNL]: 1 when the line ends with a line feed, else 0. *)
Definition lengthNL (line : string) : nat :=
  match String.length line with
  | 0 => 0
  | S n => match String.get n line with
           | Some c => if Ascii.eqb c LF then 1 else 0
           | None => 0
           end
  end.

Definition snoc (s : string) (c : ascii) : string := s +:+ String c EmptyString.

(** Where the [parseField] loop of [readRecord] stands inside a line. *)
Inductive fieldState : Type :=
| AtStart
    (* at the first byte of a field *)
| InBare (buf : string)
    (* inside a non-quoted field *)
| InQuoted (buf : string)
    (* inside a quoted field *)
| AfterQuote (buf : string).
    (* inside a quoted field, just after a quote *)

Inductive lineResult : Type :=
| EndRecord (fields : list string)
    (* the record ends with this line *)
| OpenQuote (fields : list string) (buf : string)
    (* the line ends inside a quoted field, which goes on in the next line *)
| BadLine (e : csvErr).

(** The bytes left are the line feed that ends the line. *)
Definition isNL (c : ascii) (rest : string) : bool :=
  Ascii.eqb c LF && match rest with EmptyString => true | _ => false end.

(** The [parseField] loop over one line.  A non-quoted field runs up to the
    next comma or to the end of the line, its line feed excluded, and must not
    hold a quote ([ErrBareQuote]).  In a quoted field a doubled quote stands
    for a quote; a single one must be followed by a comma or by the end of the
    line ([ErrQuote] otherwise). *)
Fixpoint parseLine (st : fieldState) (fields : list string) (line : string)
    : lineResult :=
  match line with
  | EmptyString =>
      match st with
      | AtStart => EndRecord (fields ++ [EmptyString])
      | InBare buf => EndRecord (fields ++ [buf])
      | InQuoted buf => OpenQuote fields buf
      | AfterQuote buf => EndRecord (fields ++ [buf])
      end
  | String c rest =>
      match st with
      | AtStart =>
          if Ascii.eqb c Quote then parseLine (InQuoted EmptyString) fields rest
          else if Ascii.eqb c Comma then parseLine AtStart (fields ++ [EmptyString]) rest
          else if isNL c rest then EndRecord (fields ++ [EmptyString])
          else parseLine (InBare (String c EmptyString)) fields rest
      | InBare buf =>
          if Ascii.eqb c Comma then parseLine AtStart (fields ++ [buf]) rest
          else if Ascii.eqb c Quote then BadLine ErrBareQuote
          else if isNL c rest then EndRecord (fields ++ [buf])
          else parseLine (InBare (snoc buf c)) fields rest
      | InQuoted buf =>
          if Ascii.eqb c Quote then parseLine (AfterQuote buf) fields rest
          else parseLine (InQuoted (snoc buf c)) fields rest
      | AfterQuote buf =>
          if Ascii.eqb c Quote then parseLine (InQuoted (snoc buf Quote)) fields rest
          else if Ascii.eqb c Comma then parseLine AtStart (fields ++ [buf]) rest
          else if isNL c rest then EndRecord (fields ++ [buf])
          else BadLine ErrQuote
      end
  end.

(** The end of [readRecord]: a positive [FieldsPerRecord] is the number of
    fields every record must have; 0 is replaced by the number of fields of
    the record just read (the first one); a negative one checks nothing. *)
Definition checkFieldCount (FieldsPerRecord : Z) (dst : list string) : Result Z :=
  if (0 <? FieldsPerRecord)%Z then
    if negb (Z.of_nat (length dst) =? FieldsPerRecord)%Z
    then Err (CsvParseError ErrFieldCount)
    else Ok FieldsPerRecord
  else if (FieldsPerRecord =? 0)%Z then Ok (Z.of_nat (length dst))
  else Ok FieldsPerRecord.

(** The loop of [ReadAll] with the [readRecord] calls unrolled over the
    lines.  [partial] holds the fields and the bytes read so far of a record
    whose quoted field crosses a line end.  Between records, a line that is
    empty or a lone line feed is skipped.  The first error ends the loop and
    no record is returned. *)
Fixpoint readRecords (FieldsPerRecord : Z) (partial : option (list string * string))
    (lines : list string) (records : list (list string))
    : Result (list (list string)) :=
  match lines with
  | [] =>
      match partial with
      | None => Ok records
      | Some _ => Err (CsvParseError ErrQuote)
      end
  | line :: lines' =>
      let step :=
        match partial with
        | None =>
            if (String.length line =? lengthNL line)%nat then None
            else Some (parseLine AtStart [] line)
        | Some (fields, buf) => Some (parseLine (InQuoted buf) fields line)
        end in
      match step with
      | None => readRecords FieldsPerRecord None lines' records
      | Some (BadLine e) => Err (CsvParseError e)
      | Some (OpenQuote fields buf) =>
          readRecords FieldsPerRecord (Some (fields, buf)) lines' records
      | Some (EndRecord dst) =>
          match checkFieldCount FieldsPerRecord dst with
          | Err e => Err e
          | Ok n => readRecords n None lines' (records ++ [dst])
          end
      end
  end.

Record Reader : Type := mkReader {
  FieldsPerRecord : Z;
  r : string (* the input not yet read *)
}.

Definition NewReader (data : string) : Reader :=
  {| FieldsPerRecord := 0; r := data |}.

Definition ReadAll (rd : Reader) : Result (list (list string)) :=
  readRecords (FieldsPerRecord rd) None (readLines (r rd)) [].

End csv.

(** ** The table loader *)

(** [result[col] = append(result[col], record[i])] under [i < len(record)]. *)
Definition appendCell (i : nat) (col : string)
    (result : gmap string (list string)) (record : list string)
    : gmap string (list string) :=
  if (i <? length record)%nat
  then <[col := default [] (result !! col) ++ [default EmptyString (record !! i)]]> result
  else result.

(** One pass of the outer loop: [result[col]] is reset, then filled from the
    data rows. *)
Definition fillColumn (rows : list (list string)) (i : nat) (col : string)
    (result : gmap string (list string)) : gmap string (list string) :=
  fold_left (appendCell i col) rows (<[col := []]> result).

(** [for i, col := range header], from index [i] on. *)
Fixpoint rangeHeader (rows : list (list string)) (i : nat) (header : list string)
    (result : gmap string (list string)) : gmap string (list string) :=
  match header with
  | [] => result
  | col :: header' => rangeHeader rows (S i) header' (fillColumn rows i col result)
  end.

Definition CsvToSlice (data : string) : Result (gmap string (list string)) :=
  match csv.ReadAll (csv.NewReader data) with
  | Err e => Err e
  | Ok records =>
      if (length records <? 1)%nat then Err NoDataFound
      else
        let header := default [] (records !! 0%nat) in
        Ok (rangeHeader (drop 1 records) 0 header ∅)
  end.

(** The cells at position [i] of the rows that have one, in row order. *)
Fixpoint column (i : nat) (rows : list (list string)) : list string :=
  match rows with
  | [] => []
  | record :: rows' =>
      match record !! i with
      | Some cell => cell :: column i rows'
      | None => column i rows'
      end
  end.

(** Every record has [n] fields. *)
Definition uniformWidth (n : Z) (records : list (list string)) : Prop :=
  Forall (λ record : list string, Z.of_nat (length record) = n) records.

(** What [FieldsPerRecord] knows about the records read so far, for a reader
    that started at 0. *)
Definition readerInv (FieldsPerRecord : Z) (records : list (list string)) : Prop :=
  (FieldsPerRecord = 0%Z ∧ records = []) ∨
  ((0 < FieldsPerRecord)%Z ∧ uniformWidth FieldsPerRecord records).

(** The rows of a delimited text when no field count is enforced: the
    records of a reader whose [FieldsPerRecord] is negative. *)
Definition rowsOf (data : string) : Result (list (list string)) :=
  csv.ReadAll (csv.mkReader (-1) data).

(** ** Tables written without quotes *)

(** A line of a file: the text and its line feed. *)
Definition line (s : string) : string := s +:+ String csv.LF EmptyString.

(** A byte of a cell that needs no quoting. *)
Definition plainByte (c : ascii) : bool :=
  negb (Ascii.eqb c csv.Comma || Ascii.eqb c csv.Quote
        || Ascii.eqb c csv.LF || Ascii.eqb c csv.CR).

Fixpoint plain (cell : string) : bool :=
  match cell with
  | EmptyString => true
  | String c cell' => plainByte c && plain cell'
  end.

(** A record that is written without quotes, as one line that is not blank. *)
Definition plainRecord (record : list string) : Prop :=
  Forall (λ cell : string, plain cell = true) record
  ∧ join "," record ≠ EmptyString.

(** A record as a line of text, and records as a text. *)
Definition renderRecord (record : list string) : string :=
  line (join "," record).

Definition render (records : list (list string)) : string :=
  fold_right (λ record text, renderRecord record +:+ text) EmptyString records.

(** No line feed and no carriage return. *)
Fixpoint oneLine (s : string) : bool :=
  match s with
  | EmptyString => true
  | String c s' => negb (Ascii.eqb c csv.LF || Ascii.eqb c csv.CR) && oneLine s'
  end.

(** ** [unicode/utf8] *)

Module utf8.

Definition byte (c : ascii) : N := N_of_ascii c.

Definition between (lo hi : N) (c : ascii) : bool :=
  ((lo <=? byte c) && (byte c <=? hi))%N.

(** The continuation bytes. *)
Definition locb : N := 0x80.
Definition hicb : N := 0xBF.

(** The range the first byte leaves to the second ([acceptRanges]). *)
Definition second (b0 b1 : ascii) : bool :=
  if (byte b0 =? 0xE0)%N then between 0xA0 hicb b1
  else if (byte b0 =? 0xED)%N then between locb 0x9F b1
  else if (byte b0 =? 0xF0)%N then between 0x90 hicb b1
  else if (byte b0 =? 0xF4)%N then between locb 0x8F b1
  else between locb hicb b1.

(** The width that [DecodeRuneInString] reports for the rune at the head of
    [s]; 0 stands for its answer [(RuneError, 1)] to bytes that start no
    well-formed encoding. *)
Definition DecodeRuneInString (s : string) : nat :=
  match s with
  | EmptyString => 0
  | String b0 s1 =>
      if (byte b0 <? 0x80)%N then 1
      else if between 0xC2 0xDF b0 then
        match s1 with
        | String b1 _ => if second b0 b1 then 2 else 0
        | _ => 0
        end
      else if between 0xE0 0xEF b0 then
        match s1 with
        | String b1 (String b2 _) =>
            if second b0 b1 && between locb hicb b2 then 3 else 0
        | _ => 0
        end
      else if between 0xF0 0xF4 b0 then
        match s1 with
        | String b1 (String b2 (String b3 _)) =>
            if second b0 b1 && between locb hicb b2 && between locb hicb b3
            then 4 else 0
        | _ => 0
        end
      else 0
  end.

(** The encoding of U+FFFD. *)
Definition RuneError : string :=
  String (ascii_of_N 0xEF) (String (ascii_of_N 0xBF) (String (ascii_of_N 0xBD) EmptyString)).

Fixpoint ValidString (s : string) : bool :=
  match s with
  | EmptyString => true
  | String b0 s1 =>
      match DecodeRuneInString s, s1 with
      | 1, _ => ValidString s1
      | 2, String _ s2 => ValidString s2
      | 3, String _ (String _ s3) => ValidString s3
      | 4, String _ (String _ (String _ s4)) => ValidString s4
      | _, _ => false
      end
  end.

Definition isSurrogate (rr : N) : bool := ((0xD800 <=? rr) && (rr <? 0xE000))%N.

(** [utf16.DecodeRune]; [None] stands for U+FFFD. *)
Definition DecodeSurrogates (r1 r2 : N) : option N :=
  if ((0xD800 <=? r1) && (r1 <? 0xDC00) && (0xDC00 <=? r2) && (r2 <? 0xE000))%N
  then Some ((r1 - 0xD800) * 0x400 + (r2 - 0xDC00) + 0x10000)%N
  else None.

Definition cont (n : N) : ascii := ascii_of_N (0x80 + N.land n 0x3F).

Definition EncodeRune (rr : N) : string :=
  if (rr <? 0x80)%N then String (ascii_of_N rr) EmptyString
  else if (rr <? 0x800)%N then
    String (ascii_of_N (0xC0 + N.shiftr rr 6)) (String (cont rr) EmptyString)
  else if isSurrogate rr || (0x10FFFF <? rr)%N then RuneError
  else if (rr <? 0x10000)%N then
    String (ascii_of_N (0xE0 + N.shiftr rr 12))
      (String (cont (N.shiftr rr 6)) (String (cont rr) EmptyString))
  else
    String (ascii_of_N (0xF0 + N.shiftr rr 18))
      (String (cont (N.shiftr rr 12))
         (String (cont (N.shiftr rr 6)) (String (cont rr) EmptyString))).

End utf8.

(** ** The request payload and [encoding/json] *)

Record Inputs : Type := mkInputs {
  Table : gmap string (list string); (* `json:"table"` *)
  Query : string                     (* `json:"query"` *)
}.

(** The encoder is [json.Marshal] at the type [Inputs]: a struct of a
    [map[string][]string] and a [string].  A map that is not nil is written
    as an object with its keys sorted, a slice that is not nil as an array;
    [CsvToSlice] makes both with [make].  Strings are written by
    [appendString] with HTML escaping on.  The decoder, which the program
    itself never runs, reads the compact form the encoder writes. *)
Module json.

Definition Quote : ascii := "034"%char.
Definition Backslash : ascii := "\"%char.

(** ["0123456789abcdef"[n]] *)
Definition hex (n : N) : ascii :=
  default "0"%char (String.get (N.to_nat n) "0123456789abcdef").

Definition htmlSafe (b : ascii) : bool :=
  (0x20 <=? utf8.byte b)%N &&
  negb (Ascii.eqb b Quote || Ascii.eqb b "&" || Ascii.eqb b "<" || Ascii.eqb b ">"
        || Ascii.eqb b Backslash).

(** A byte below [utf8.RuneSelf].  (Later releases of Go write the bytes 8
    and 12 as the two-letter escapes of backspace and form feed, which
    [unquote] reads back to the same bytes.) *)
Definition escapeByte (b : ascii) : string :=
  if htmlSafe b then String b EmptyString
  else if Ascii.eqb b Backslash || Ascii.eqb b Quote
  then String Backslash (String b EmptyString)
  else if Ascii.eqb b "010" then "\n"
  else if Ascii.eqb b "013" then "\r"
  else if Ascii.eqb b "009" then "\t"
  else "\u00" +:+ String (hex (N.shiftr (utf8.byte b) 4))
                    (String (hex (N.land (utf8.byte b) 0xF)) EmptyString).

(** U+2028 and U+2029. *)
Definition isLineSep (b0 b1 b2 : ascii) : bool :=
  (utf8.byte b0 =? 0xE2)%N && (utf8.byte b1 =? 0x80)%N &&
  ((utf8.byte b2 =? 0xA8)%N || (utf8.byte b2 =? 0xA9)%N).

(** The escape that replaces a byte that starts no well-formed rune. *)
Definition replacement : string := "\u" +:+ "fffd".

(** The loop of [appendString] between the two quotes: bytes that start no
    well-formed rune are replaced by the escape of U+FFFD, the two line
    separators are escaped, every other rune is copied. *)
Fixpoint escape (src : string) : string :=
  match src with
  | EmptyString => EmptyString
  | String b0 s1 =>
      match utf8.DecodeRuneInString src, s1 with
      | 1, _ => escapeByte b0 +:+ escape s1
      | 2, String b1 s2 => String b0 (String b1 (escape s2))
      | 3, String b1 (String b2 s3) =>
          if isLineSep b0 b1 b2
          then "\u202" +:+ String (hex (N.land (utf8.byte b2) 0xF)) (escape s3)
          else String b0 (String b1 (String b2 (escape s3)))
      | 4, String b1 (String b2 (String b3 s4)) =>
          String b0 (String b1 (String b2 (String b3 (escape s4))))
      | _, _ => replacement +:+ escape s1
      end
  end.

Definition appendString (src : string) : string :=
  String Quote (escape src +:+ String Quote EmptyString).

Definition encodeSlice (v : list string) : string :=
  "[" +:+ join "," (appendString <$> v) +:+ "]".

(** The order in which the encoder writes the keys of a map. *)
Definition keyLe (x y : string * list string) : Prop :=
  Is_true (String.leb x.1 y.1).

#[local] Instance keyLe_dec x y : Decision (keyLe x y) := _.

Definition encodeEntry (kv : string * list string) : string :=
  appendString kv.1 +:+ ":" +:+ encodeSlice kv.2.

Definition encodeMap (m : gmap string (list string)) : string :=
  "{" +:+ join "," (encodeEntry <$> merge_sort keyLe (map_to_list m)) +:+ "}".

(** The struct, its fields in the order of their declaration under the
    names of their tags. *)
Definition encodeInputs (v : Inputs) : string :=
  "{" +:+ appendString "table" +:+ ":" +:+ encodeMap (Table v) +:+ ","
      +:+ appendString "query" +:+ ":" +:+ appendString (Query v) +:+ "}".

(** [json.Marshal(payload)]; no value of type [Inputs] makes it fail. *)
Definition Marshal (v : Inputs) : Result string := Ok (encodeInputs v).

(** *** Decoding *)

Definition hexVal (c : ascii) : option N :=
  let n := utf8.byte c in
  if utf8.between 0x30 0x39 c then Some (n - 0x30)%N
  else if utf8.between 0x61 0x66 c then Some (n - 0x61 + 10)%N
  else if utf8.between 0x41 0x46 c then Some (n - 0x41 + 10)%N
  else None.

Definition getu4 (h1 h2 h3 h4 : ascii) : option N :=
  match hexVal h1, hexVal h2, hexVal h3, hexVal h4 with
  | Some a, Some b, Some c, Some d => Some (((a * 16 + b) * 16 + c) * 16 + d)%N
  | _, _, _, _ => None
  end.

(** The byte a one-letter escape stands for. *)
Definition unescape (e : ascii) : option ascii :=
  if Ascii.eqb e Quote || Ascii.eqb e Backslash || Ascii.eqb e "/" then Some e
  else if Ascii.eqb e "b" then Some "008"%char
  else if Ascii.eqb e "f" then Some "012"%char
  else if Ascii.eqb e "n" then Some "010"%char
  else if Ascii.eqb e "r" then Some "013"%char
  else if Ascii.eqb e "t" then Some "009"%char
  else None.

Definition prefix (p : string) (res : option (string * string))
    : option (string * string) :=
  match res with
  | Some (v, rest) => Some (p +:+ v, rest)
  | None => None
  end.

(** [unquote], from the byte after the opening quote: the string read and the
    input after its closing quote.  Escapes are undone, a surrogate escape
    without its partner and a byte that starts no well-formed rune become
    U+FFFD, and a control byte is refused. *)
Fixpoint unquote (s : string) : option (string * string) :=
  match s with
  | EmptyString => None
  | String c s1 =>
      if Ascii.eqb c Quote then Some (EmptyString, s1)
      else if Ascii.eqb c Backslash then
        match s1 with
        | String e s2 =>
            if Ascii.eqb e "u" then
              match s2 with
              | String h1 (String h2 (String h3 (String h4 s6))) =>
                  match getu4 h1 h2 h3 h4 with
                  | Some rr =>
                      if utf8.isSurrogate rr then
                        match s6 with
                        | String b (String u (String l1 (String l2 (String l3 (String l4 s12))))) =>
                            match (if Ascii.eqb b Backslash && Ascii.eqb u "u"
                                   then getu4 l1 l2 l3 l4 else None) with
                            | Some rr1 =>
                                match utf8.DecodeSurrogates rr rr1 with
                                | Some dec => prefix (utf8.EncodeRune dec) (unquote s12)
                                | None => prefix utf8.RuneError (unquote s6)
                                end
                            | None => prefix utf8.RuneError (unquote s6)
                            end
                        | _ => prefix utf8.RuneError (unquote s6)
                        end
                      else prefix (utf8.EncodeRune rr) (unquote s6)
                  | None => None
                  end
              | _ => None
              end
            else
              match unescape e with
              | Some b => prefix (String b EmptyString) (unquote s2)
              | None => None
              end
        | EmptyString => None
        end
      else if (utf8.byte c <? 0x20)%N then None
      else
        match utf8.DecodeRuneInString s, s1 with
        | 1, _ => prefix (String c EmptyString) (unquote s1)
        | 2, String b1 s2 => prefix (String c (String b1 EmptyString)) (unquote s2)
        | 3, String b1 (String b2 s3) =>
            prefix (String c (String b1 (String b2 EmptyString))) (unquote s3)
        | 4, String b1 (String b2 (String b3 s4)) =>
            prefix (String c (String b1 (String b2 (String b3 EmptyString)))) (unquote s4)
        | _, _ => prefix utf8.RuneError (unquote s1)
        end
  end.

(** A JSON string, from its opening quote. *)
Definition decodeString (s : string) : option (string * string) :=
  match s with
  | String c s1 => if Ascii.eqb c Quote then unquote s1 else None
  | EmptyString => None
  end.

(** The elements of an array that is not empty, up to and including its
    closing bracket.  An element takes at least two bytes, so the length of
    the input bounds the number of turns. *)
Fixpoint elements (turns : nat) (s : string) : option (list string * string) :=
  match turns with
  | 0 => None
  | S turns' =>
      match decodeString s with
      | Some (x, String d s2) =>
          if Ascii.eqb d "," then
            match elements turns' s2 with
            | Some (xs, rest) => Some (x :: xs, rest)
            | None => None
            end
          else if Ascii.eqb d "]" then Some ([x], s2)
          else None
      | _ => None
      end
  end.

(** A value for a [[]string]: an array of strings, or [null]. *)
Definition decodeSlice (s : string) : option (list string * string) :=
  match s with
  | String "[" (String "]" rest) => Some ([], rest)
  | String "[" s1 => elements (String.length s1) s1
  | String "n" (String "u" (String "l" (String "l" rest))) => Some ([], rest)
  | _ => None
  end.

(** The members of an object that is not empty, up to and including its
    closing brace; a key met again replaces the value it had. *)
Fixpoint members (turns : nat) (s : string) (m : gmap string (list string))
    : option (gmap string (list string) * string) :=
  match turns with
  | 0 => None
  | S turns' =>
      match decodeString s with
      | Some (k, String ":" s2) =>
          match decodeSlice s2 with
          | Some (v, String d s3) =>
              if Ascii.eqb d "," then members turns' s3 (<[k := v]> m)
              else if Ascii.eqb d "}" then Some (<[k := v]> m, s3)
              else None
          | _ => None
          end
      | _ => None
      end
  end.

(** A value for a [map[string][]string]. *)
Definition decodeMap (s : string) : option (gmap string (list string) * string) :=
  match s with
  | String "{" (String "}" rest) => Some (∅, rest)
  | String "{" s1 => members (String.length s1) s1 ∅
  | String "n" (String "u" (String "l" (String "l" rest))) => Some (∅, rest)
  | _ => None
  end.

(** What follows a member of the outer object. *)
Definition fieldsNext (next : string → Inputs → option (Inputs * string))
    (res : option (Inputs * string)) : option (Inputs * string) :=
  match res with
  | Some (v, String d s2) =>
      if Ascii.eqb d "," then next s2 v
      else if Ascii.eqb d "}" then Some (v, s2)
      else None
  | _ => None
  end.

(** The members of the outer object, stored into the fields that carry their
    names as tags. *)
Fixpoint fields (turns : nat) (s : string) (v : Inputs) : option (Inputs * string) :=
  match turns with
  | 0 => None
  | S turns' =>
      match decodeString s with
      | Some (k, String ":" s1) =>
          if String.eqb k "table" then
            fieldsNext (fields turns')
              (match decodeMap s1 with
               | Some (t, rest) => Some (mkInputs t (Query v), rest)
               | None => None
               end)
          else if String.eqb k "query" then
            fieldsNext (fields turns')
              (match decodeString s1 with
               | Some (x, rest) => Some (mkInputs (Table v) x, rest)
               | None => None
               end)
          else None
      | _ => None
      end
  end.

(** Modelled from the spec: the deserializer of the request body, which the
    repository does not contain (its endpoint is remote).  It reads the wire
    format of the request, a JSON object whose member "table" maps column
    names to arrays of strings and whose member "query" is a string, the way
    [json.Unmarshal(data, &v)] fills an [Inputs] that starts at its zero
    value. *)
Definition Unmarshal (data : string) : Result Inputs :=
  match data with
  | String "{" s1 =>
      match fields (String.length s1) s1 (mkInputs ∅ EmptyString) with
      | Some (v, EmptyString) => Ok v
      | _ => Err DecodeError
      end
  | _ => Err DecodeError
  end.

End json.

(** ** [float64] and [time] *)

(** An IEEE 754 binary64 number: a [spec_float] [f] with
    [valid_binary 53 1024 f]. *)
Definition float64 : Type := spec_float.

Module time.

(** A [Duration] is an [int64] count of nanoseconds. *)
Definition Second : Z := 1000000000.

(** The value an [int64] holds after an operation whose exact result is [z]. *)
Definition int64 (z : Z) : Z := ((z + 2 ^ 63) mod 2 ^ 64 - 2 ^ 63)%Z.

(** The integer a finite [float64] becomes when its fraction is discarded. *)
Definition truncate (f : float64) : option Z :=
  match f with
  | S754_zero _ => Some 0%Z
  | S754_finite s m e =>
      let magnitude :=
        if (0 <=? e)%Z then (Z.pos m * 2 ^ e)%Z else (Z.pos m / 2 ^ (- e))%Z in
      Some (if s then (- magnitude)%Z else magnitude)
  | S754_infinity _ | S754_nan => None
  end.

(** The time [Sleep d] asks for: a duration that is not positive makes it
    return at once. *)
Definition Sleep (d : Z) : Z := Z.max 0 d.

End time.

(** ** [net/http] *)

Module http.

Definition StatusOK : Z := 200.
Definition StatusServiceUnavailable : Z := 503.

(** A [*http.Request].  [Body] is a reader over a [bytes.Buffer]: what it
    holds is what has not been read yet, and the request shares it with every
    call it is passed to.  [NewRequest] also sets [GetBody], from which the
    client takes a fresh reader when it follows a redirect; a request that is
    passed to [Do] again is sent with the [Body] it has. *)
Record Request : Type := mkRequest {
  Method : string;
  URL : string;
  Header : gmap string string;
  Body : string;
  ContentLength : Z
}.

(** A [*http.Response]; [RespBody] is what is left to read of its body. *)
Record Response : Type := mkResponse {
  Status : string;
  StatusCode : Z;
  RespBody : string
}.

(** [http.NewRequest(method, url, bytes.NewBuffer(data))] with a method and
    a URL that are well formed. *)
Definition NewRequest (method url data : string) : Result Request :=
  Ok {| Method := method; URL := url; Header := ∅; Body := data;
        ContentLength := Z.of_nat (String.length data) |}.

(** [req.Header.Set(key, value)] *)
Definition Header_Set (key value : string) (req : Request) : Request :=
  {| Method := Method req; URL := URL req;
     Header := <[key := value]> (Header req);
     Body := Body req; ContentLength := ContentLength req |}.

(** The request as one call of [Client.Do] has it to send: the method, the
    URL and the headers that the caller set, the content length, and the
    bytes that its body reader still gave.  What reaches the server is up to
    the transport, which adds headers of its own and may read the body again
    through [GetBody] when it retries on a connection that it reuses. *)
Record Wire : Type := mkWire {
  wMethod : string;
  wURL : string;
  wHeader : gmap string string;
  wContentLength : Z;
  wBody : string
}.

(** What one call of [Client.Do] returns. *)
Inductive RoundTrip : Type :=
| Failed (msg : string)
    (* a transport error and no response *)
| Answered (resp : Response).

(** An [*http.Client], seen through [Do]: what its call number [n] gets back
    for the request it had to send. *)
Definition Client : Type := nat → Wire → RoundTrip.

End http.

(** [ioutil.ReadAll(r)]: the bytes the reader had left, and the reader after
    the call, which has none. *)
Definition ioutil_ReadAll (unread : string) : string * string :=
  (unread, EmptyString).

(** The values [json.Unmarshal] stores into an [interface{}]. *)
#[warnings="-register-all"]
Inductive jsonValue : Type :=
| JNull
| JBool (b : bool)
| JNumber (f : float64)
| JString (s : string)
| JArray (l : list jsonValue)
| JObject (m : list (string * jsonValue)).

(** ** The inference client *)

Record Response : Type := mkResponse {
  Answer : string;              (* `json:"answer"` *)
  Coordinates : list (list Z);  (* `json:"coordinates"` *)
  Cells : list string;          (* `json:"cells"` *)
  Aggregator : string           (* `json:"aggregator"` *)
}.

Record AIModelConnector : Type := mkConnector {
  Client : http.Client
}.

(** What [ConnectAIModel] does that the caller or the endpoint can see. *)
Inductive event : Type :=
| Sent (w : http.Wire)
    (* a call of [c.Client.Do] *)
| Logged (estimatedTime : float64)
    (* "Model is currently loading, retrying in %.1f seconds..." *)
| Slept (d : Z).
    (* a call of [time.Sleep] *)

Definition url : string :=
  "https://api-inference.huggingface.co/models/google/tapas-base-finetuned-wtq".

Definition maxRetries : nat := 10.

(** The request as [ConnectAIModel] has it when it enters its loop. *)
Definition buildRequest (data token : string) : http.Request :=
  {| http.Method := "POST"; http.URL := url;
     http.Header := <["Content-Type"%string := "application/json"%string]>
                      (<["Authorization"%string := ("Bearer " +:+ token)%string]> ∅);
     http.Body := data;
     http.ContentLength := Z.of_nat (String.length data) |}.

(** That request when call [i] of [c.Client.Do] receives it: all calls share
    it, and the first one reads its body to the end. *)
Definition requestAt (data token : string) (i : nat) : http.Request :=
  {| http.Method := "POST"; http.URL := url;
     http.Header := http.Header (buildRequest data token);
     http.Body := match i with 0 => data | S _ => EmptyString end;
     http.ContentLength := Z.of_nat (String.length data) |}.

(** What call [i] of [c.Client.Do] has to send. *)
Definition wireAt (data token : string) (i : nat) : http.Wire :=
  {| http.wMethod := "POST"; http.wURL := url;
     http.wHeader := http.Header (buildRequest data token);
     http.wContentLength := Z.of_nat (String.length data);
     http.wBody := http.Body (requestAt data token i) |}.

(** The requests of a trace, and the arguments of its [time.Sleep] calls. *)
Definition sends (trace : list event) : list http.Wire :=
  flat_map (λ ev, match ev with Sent w => [w] | _ => [] end) trace.

Definition sleeps (trace : list event) : list Z :=
  flat_map (λ ev, match ev with Slept d => [d] | _ => [] end) trace.

Section Connector.

(** The receiver of [ConnectAIModel]. *)
Variable c : AIModelConnector.

(** [json.Unmarshal(body, &result)] for [result] a [map[string]interface{}];
    [None] when it returns an error. *)
Variable json_Unmarshal : string → option (gmap string jsonValue).

(** [json.NewDecoder(resp.Body).Decode(&aiResponse)]; [None] when it returns
    an error. *)
Variable json_Decode : string → option Response.

(** What the conversion of a [float64] that no [int64] represents gives,
    which depends on the implementation. *)
Variable outOfRange : float64 → Z.

(** The conversion [time.Duration(f)] of a [float64]. *)
Definition Duration (f : float64) : Z :=
  match time.truncate f with
  | Some z => if ((- 2 ^ 63 <=? z) && (z <? 2 ^ 63))%Z then z else outOfRange f
  | None => outOfRange f
  end.

(** The argument of [time.Sleep]:
    [time.Duration(estimatedTime) * time.Second]. *)
Definition sleepFor (estimatedTime : float64) : Z :=
  time.int64 (Duration estimatedTime * time.Second).

(** [c.Client.Do(req)] as call number [n]: the transport reads the body of
    the request to its end and has what it read to send.  The request comes
    back with what is left of its body. *)
Definition Client_Do (n : nat) (req : http.Request)
    : http.Wire * http.RoundTrip * http.Request :=
  let '(sent, unread) := ioutil_ReadAll (http.Body req) in
  let w := {| http.wMethod := http.Method req; http.wURL := http.URL req;
              http.wHeader := http.Header req;
              http.wContentLength := http.ContentLength req;
              http.wBody := sent |} in
  (w, Client c n w,
   {| http.Method := http.Method req; http.URL := http.URL req;
      http.Header := http.Header req; http.Body := unread;
      http.ContentLength := http.ContentLength req |}).

(** [result["estimated_time"].(float64)] after [json.Unmarshal(body, &result)]
    succeeded. *)
Definition estimatedTimeOf (body : string) : option float64 :=
  match json_Unmarshal body with
  | Some result =>
      match result !! "estimated_time"%string with
      | Some (JNumber estimatedTime) => Some estimatedTime
      | _ => None
      end
  | None => None
  end.

(** The last two statements of the loop body, run on what is left to read of
    the response body. *)
Definition failWith (resp : http.Response) (unread : string) : error :=
  let '(body, _) := ioutil_ReadAll unread in
  StatusError (http.Status resp) body.

(** The retry loop with [i] at its current value and [left] turns to go
    ([left] is [maxRetries - i]).  The deferred [resp.Body.Close()] calls
    change nothing that the function returns. *)
Fixpoint retryLoop (left i : nat) (req : http.Request) (trace : list event)
    : Result Response * list event :=
  match left with
  | 0 => (Err MaxRetriesReached, trace)
  | S left' =>
      let '(w, rt, req') := Client_Do i req in
      let trace := trace ++ [Sent w] in
      match rt with
      | http.Failed msg => (Err (TransportError msg), trace)
      | http.Answered resp =>
          if (http.StatusCode resp =? http.StatusOK)%Z then
            match json_Decode (http.RespBody resp) with
            | None => (Err DecodeError, trace)
            | Some aiResponse => (Ok aiResponse, trace)
            end
          else if (http.StatusCode resp =? http.StatusServiceUnavailable)%Z then
            let '(body, unread) := ioutil_ReadAll (http.RespBody resp) in
            match estimatedTimeOf body with
            | Some estimatedTime =>
                retryLoop left' (S i) req'
                  (trace ++ [Logged estimatedTime; Slept (sleepFor estimatedTime)])
            | None => (Err (failWith resp unread), trace)
            end
          else (Err (failWith resp (http.RespBody resp)), trace)
      end
  end.

(** What a turn of the loop that ends with [continue] leaves in the trace. *)
Definition retryEvents (data token : string) (t : nat → float64) (i : nat)
    : list event :=
  [Sent (wireAt data token i); Logged (t i); Slept (sleepFor (t i))].

Definition ConnectAIModel (payload : Inputs) (token : string)
    : Result Response * list event :=
  match json.Marshal payload with
  | Err e => (Err e, [])
  | Ok data =>
      match http.NewRequest "POST" url data with
      | Err e => (Err e, [])
      | Ok req =>
          let req := http.Header_Set "Authorization" ("Bearer " +:+ token) req in
          let req := http.Header_Set "Content-Type" "application/json" req in
          retryLoop maxRetries 0 req []
      end
  end.

End Connector.

(** ** Payloads that are valid UTF-8 *)

(** Every cell of a column is valid UTF-8. *)
Definition validCells (v : list string) : Prop :=
  Forall (λ cell : string, utf8.ValidString cell = true) v.

(** The key and the cells of a map entry are valid UTF-8. *)
Definition validEntry (kv : string * list string) : Prop :=
  utf8.ValidString kv.1 = true ∧ validCells kv.2.

Definition validTable (m : gmap string (list string)) : Prop :=
  map_Forall (λ (k : string) (cells : list string),
                utf8.ValidString k = true ∧ validCells cells) m.

Definition validInputs (v : Inputs) : Prop :=
  validTable (Table v) ∧ utf8.ValidString (Query v) = true.

(** [m[k] = v] for an entry [(k, v)]. *)
Definition store (m : gmap string (list string)) (kv : string * list string)
    : gmap string (list string) :=
  <[kv.1 := kv.2]> m.

(** ** Sample inputs *)

Definition cityCsv : string := line "city,kwh" +:+ line "A,10" +:+ line "B,20".

(** A header that names its first and third columns alike. *)
Definition twiceCsv : string := line "a,b,a" +:+ line "1,2,3" +:+ line "4,5,6".


(** Two data rows under a header with two fields, the second with one. *)
Definition unevenCsv : string := line "a,b" +:+ line "1,2" +:+ line "3".

(** A quote inside a non-quoted field. *)
Definition bareQuoteCsv : string :=
  line "a,b" +:+ line ("1,2" +:+ String csv.Quote "3").

(** 0.01 as a binary64: 5764607523034235 * 2^-59. *)
Definition centisecond : float64 := S754_finite false 5764607523034235 (-59).

(** The body [{"estimated_time":0.01}] of a 503 response. *)
Definition loadingBody : string :=
  "{" +:+ json.appendString "estimated_time" +:+ ":0.01}".

Definition loading : http.Response :=
  {| http.Status := "503 Service Unavailable";
     http.StatusCode := http.StatusServiceUnavailable;
     http.RespBody := loadingBody |}.

(** A 503 response whose body is no JSON. *)
Definition unavailable : http.Response :=
  {| http.Status := "503 Service Unavailable";
     http.StatusCode := http.StatusServiceUnavailable;
     http.RespBody := "Service Unavailable" |}.

Definition forbidden : http.Response :=
  {| http.Status := "403 Forbidden"; http.StatusCode := 403;
     http.RespBody := "Authorization header is invalid" |}.

Definition sampleAnswer : Response :=
  {| Answer := "SUM > 10, 20"; Coordinates := [[0; 1]; [1; 1]]%Z;
     Cells := ["10"; "20"]%string; Aggregator := "SUM" |}.

(** The body of a 200 response that carries [sampleAnswer]. *)
Definition answerBody : string :=
  "{" +:+ json.appendString "answer" +:+ ":" +:+ json.appendString "SUM > 10, 20"
      +:+ "," +:+ json.appendString "coordinates" +:+ ":[[0,1],[1,1]],"
      +:+ json.appendString "cells" +:+ ":" +:+ json.encodeSlice ["10"; "20"]%string
      +:+ "," +:+ json.appendString "aggregator" +:+ ":" +:+ json.appendString "SUM"
      +:+ "}".

Definition answered : http.Response :=
  {| http.Status := "200 OK"; http.StatusCode := http.StatusOK;
     http.RespBody := answerBody |}.

(** [json.Unmarshal] and [Decode] on the bodies above. *)
Definition sampleUnmarshal (body : string) : option (gmap string jsonValue) :=
  if String.eqb body loadingBody
  then Some {[ "estimated_time"%string := JNumber centisecond ]}
  else None.

Definition sampleDecode (body : string) : option Response :=
  if String.eqb body answerBody then Some sampleAnswer else None.

(** The conversion of an out-of-range [float64] on amd64. *)
Definition amd64 (f : float64) : Z := (- 2 ^ 63)%Z.

(** An endpoint that answers 503 with an estimated time to every request. *)
Definition alwaysLoading : http.Client :=
  λ n w, http.Answered loading.

(** An endpoint that answers 503 with an estimated time once, then 200. *)
Definition loadingOnce : http.Client :=
  λ n w, match n with
         | 0 => http.Answered loading
         | S _ => http.Answered answered
         end.

(** Endpoints that end the third call with a transport failure, a 503
    without an estimated time, or a 403. *)
Definition thenFails (last : http.RoundTrip) : http.Client :=
  λ n w, if (n <? 2)%nat then http.Answered loading else last.

Definition samplePayload : Inputs :=
  {| Table := <["kwh" := ["10"; "20"]]> (<["city" := ["A"; "B"]]> ∅);
     Query := "total kwh" |}%string.

(** Two queries in Latin-1, "caf" followed by the byte 0xE9 (e acute) or
    0xE8 (e grave): in UTF-8 neither byte starts a well-formed rune here. *)
Definition invalidQuery : Inputs :=
  {| Table := ∅; Query := "caf" +:+ String (ascii_of_N 0xE9) EmptyString |}.

Definition otherInvalidQuery : Inputs :=
  {| Table := ∅; Query := "caf" +:+ String (ascii_of_N 0xE8) EmptyString |}.

(** What it means for a pause of [d] nanoseconds to last [t] seconds, to
    the nanosecond. *)
Definition lastsSeconds (d : Z) (t : float64) : Prop :=
  match t with
  | S754_zero _ => d = 0%Z
  | S754_finite s m e =>
      let sm := if s then Z.neg m else Z.pos m in
      if (0 <=? e)%Z then d = (sm * 2 ^ e * time.Second)%Z
      else (Z.abs (d * 2 ^ (- e) - sm * time.Second) < 2 ^ (- e))%Z
  | S754_infinity _ | S754_nan => False
  end.

(** ** Texts whose lines end with a carriage return *)

(** Records as a text whose lines end with a carriage return and a line
    feed. *)
Definition renderCRLF (records : list (list string)) : string :=
  fold_right
    (λ record text,
       join "," record +:+ String csv.CR (String csv.LF EmptyString) +:+ text)
    EmptyString records.

(** ** The anatomy of a run *)

Section Outcome.

Variable json_Unmarshal : string → option (gmap string jsonValue).
Variable json_Decode : string → option Response.
Variable outOfRange : float64 → Z.

(** The turns that end with [continue], from call [i] on, for the estimated
    times [ts] of their responses. *)
Fixpoint retriedTurns (data token : string) (i : nat) (ts : list float64)
    : list event :=
  match ts with
  | [] => []
  | t :: ts' =>
      Sent (wireAt data token i) :: Logged t :: Slept (sleepFor outOfRange t)
        :: retriedTurns data token (S i) ts'
  end.

(** A response that makes the loop sleep and go on: a 503 whose body holds
    the number [t] under "estimated_time". *)
Definition retryable (rt : http.RoundTrip) (t : float64) : Prop :=
  ∃ resp : http.Response,
    rt = http.Answered resp
    ∧ http.StatusCode resp = http.StatusServiceUnavailable
    ∧ estimatedTimeOf json_Unmarshal (http.RespBody resp) = Some t.

(** What a call that ends the loop makes [ConnectAIModel] return. *)
Inductive ends : http.RoundTrip → Result Response → Prop :=
| ends_failed (msg : string) :
    ends (http.Failed msg) (Err (TransportError msg))
| ends_decoded (resp : http.Response) (aiResponse : Response) :
    http.StatusCode resp = http.StatusOK →
    json_Decode (http.RespBody resp) = Some aiResponse →
    ends (http.Answered resp) (Ok aiResponse)
| ends_undecodable (resp : http.Response) :
    http.StatusCode resp = http.StatusOK →
    json_Decode (http.RespBody resp) = None →
    ends (http.Answered resp) (Err DecodeError)
| ends_unavailable (resp : http.Response) :
    http.StatusCode resp = http.StatusServiceUnavailable →
    estimatedTimeOf json_Unmarshal (http.RespBody resp) = None →
    ends (http.Answered resp) (Err (StatusError (http.Status resp) EmptyString))
| ends_status (resp : http.Response) :
    http.StatusCode resp ≠ http.StatusOK →
    http.StatusCode resp ≠ http.StatusServiceUnavailable →
    ends (http.Answered resp)
      (Err (StatusError (http.Status resp) (http.RespBody resp))).

End Outcome.

(** 10^10 as a binary64: 9765625 * 2^10. *)
Definition tenBillion : float64 := S754_finite false 9765625 10.

(** 2.5 as a binary64: 5 * 2^-1. *)
Definition twoAndAHalf : float64 := S754_finite false 5 (-1).

(** ** The program *)

(** *** What [main] uses of its libraries *)

(** [strings.ToLower]: a string of ASCII bytes has its letters [A] to [Z]
    moved to lower case; any other string goes through the Unicode tables,
    which [unicodeLower] stands for. *)
Fixpoint isASCII (s : string) : bool :=
  match s with
  | EmptyString => true
  | String c s' => (N_of_ascii c <? 128)%N && isASCII s'
  end.

Definition lowerByte (c : ascii) : ascii :=
  if ((65 <=? N_of_ascii c) && (N_of_ascii c <=? 90))%N
  then ascii_of_N (N_of_ascii c + 32)
  else c.

Fixpoint lowerASCII (s : string) : string :=
  match s with
  | EmptyString => EmptyString
  | String c s' => String (lowerByte c) (lowerASCII s')
  end.

Definition strings_ToLower (unicodeLower : string → string) (s : string) : string :=
  if isASCII s then lowerASCII s else unicodeLower s.

(** [godotenv.Load()]: the variables that the file .env defines are set in
    the environment, except those that the environment has already; [vars]
    is [None] when the file cannot be read or parsed. *)
Definition godotenv_Load (vars : option (gmap string string))
    (env : gmap string string) : option (gmap string string) :=
  match vars with
  | Some vars => Some (env ∪ vars)
  | None => None
  end.

(** [os.Getenv(key)]: empty for a variable that is not set. *)
Definition os_Getenv (env : gmap string string) (key : string) : string :=
  default EmptyString (env !! key).

(** [ioutil.ReadFile(name)]; [None] when it returns an error. *)
Definition ioutil_ReadFile (files : gmap string string) (name : string)
    : option string :=
  files !! name.

(** [scanner.Scan()] followed by [scanner.Text()], on the tokens that the
    scanner still has to give: once it has given them all, [Scan] returns
    false, which [main] does not look at, and [Text] is empty. *)
Definition scan (tokens : list string) : string * list string :=
  match tokens with
  | [] => (EmptyString, [])
  | token :: tokens' => (token, tokens')
  end.

(** How [fmt.Println] writes a slice. *)
Definition fmt_slice (elements : list string) : string :=
  "[" +:+ join " " elements +:+ "]".

(** *** The world around [main] *)

Record World : Type := mkWorld {
  environ : gmap string string;
    (* the variables of the process *)
  dotenv : option (gmap string string);
    (* the variables of the file .env, [None] when [godotenv.Load] fails *)
  files : gmap string string;
    (* the files that can be read, by name *)
  stdin : list string;
    (* what [scanner.Text()] is after each call of [scanner.Scan()], up to
       the call from which on [Scan] returns false *)
  network : http.Client
    (* what the calls of [client.Do] get back, numbered through the run *)
}.

(** The calls of [log.Fatalf] in [main]. *)
Inductive fatal : Type :=
| LoadingEnv
    (* "Error loading .env file: %v\n" *)
| TokenNotFound
    (* "HUGGINGFACE_TOKEN not found in .env file" *)
| ReadingCsv
    (* "Error reading CSV file: %v\n" *)
| ParsingCsv (e : error).
    (* "Error parsing CSV file: %v\n" *)

(** What [main] does that can be seen from outside. *)
Inductive action : Type :=
| Printed (text : string)
    (* a call of [fmt.Print] or [fmt.Println] *)
| Call (payload : Inputs) (token : string) (events : list event)
    (* a call of [connector.ConnectAIModel], and what it did *)
| LogError (e : error)
    (* "Error connecting to AI model: %v\n" *)
| Fatal (f : fatal).
    (* a call of [log.Fatalf] *)

(** How the process stands: ended with an exit status, or still in the
    loop. *)
Inductive status : Type :=
| Exit (code : Z)
| Running.

(** The arguments of the calls of [ConnectAIModel] in a trace, and the
    requests that these calls sent. *)
Definition calls (trace : list action) : list (Inputs * string) :=
  flat_map (λ a, match a with
                 | Call payload token _ => [(payload, token)]
                 | _ => []
                 end) trace.

Definition requests (trace : list action) : list http.Wire :=
  flat_map (λ a, match a with
                 | Call _ _ events => sends events
                 | _ => []
                 end) trace.

Definition tokenVariable : string := "HUGGINGFACE_TOKEN".

Definition csvFile : string := "data-series.csv".

Definition banner : list action :=
  [Printed (line "AI-Powered Smart Home Energy Management System");
   Printed (line "Enter your query (type 'exit' to quit):")].

(** The five calls of [fmt.Println] that show a response. *)
Definition printResponse (response : Response) : list action :=
  [Printed (line ("Answer: " +:+ Answer response));
   Printed (line ("Coordinates: "
                    +:+ fmt_slice ((λ pair, fmt_slice (pretty <$> pair))
                                     <$> Coordinates response)));
   Printed (line ("Cells: " +:+ fmt_slice (Cells response)));
   Printed (line ("Aggregator: " +:+ Aggregator response));
   Printed (line EmptyString)].

(** The statements of [main] before the loop: the table and the token, or
    the call of [log.Fatalf] that ends the process. *)
Definition startup (w : World) : gmap string (list string) * string + fatal :=
  match godotenv_Load (dotenv w) (environ w) with
  | None => inr LoadingEnv
  | Some env =>
      let token := os_Getenv env tokenVariable in
      if String.eqb token EmptyString then inr TokenNotFound
      else
        match ioutil_ReadFile (files w) csvFile with
        | None => inr ReadingCsv
        | Some data =>
            match CsvToSlice data with
            | Err e => inr (ParsingCsv e)
            | Ok table => inl (table, token)
            end
        end
  end.

Section Program.

Variable json_Unmarshal : string → option (gmap string jsonValue).
Variable json_Decode : string → option Response.
Variable outOfRange : float64 → Z.

(** [strings.Map(unicode.ToLower, s)] for a string [s] that has a byte
    above 0x7F. *)
Variable unicodeLower : string → string.

(** The loop body from the payload on, when the client has made [done]
    calls before. *)
Definition ask (table : gmap string (list string)) (token : string)
    (client : http.Client) (done : nat) (query : string) : list action :=
  let payload := {| Table := table; Query := query |} in
  let connector := {| Client := λ n, client (done + n) |} in
  let '(result, events) :=
    ConnectAIModel connector json_Unmarshal json_Decode outOfRange payload token in
  Call payload token events
    :: match result with
       | Err err => [LogError err]
       | Ok response => printResponse response
       end.

(** The loop of [main], for at most [turns] turns. *)
Fixpoint chat (turns : nat) (table : gmap string (list string)) (token : string)
    (client : http.Client) (tokens : list string) (trace : list action)
    : list action * status :=
  match turns with
  | 0 => (trace, Running)
  | S turns' =>
      let trace := trace ++ [Printed "> "] in
      let '(query, tokens) := scan tokens in
      if String.eqb (strings_ToLower unicodeLower query) "exit"
      then (trace, Exit 0)
      else chat turns' table token client tokens
             (trace ++ ask table token client (length (requests trace)) query)
  end.

Definition main (turns : nat) (w : World) : list action * status :=
  match startup w with
  | inr f => ([Fatal f], Exit 1)
  | inl (table, token) => chat turns table token (network w) (stdin w) banner
  end.

End Program.

(** A world for the program: the variable HUGGINGFACE_TOKEN is set in the
    environment of the process when [exported] is given, the file .env sets
    it too, and the table is read from [data]. *)
Definition home (exported : option string) (data : string) (lines : list string)
    (client : http.Client) : World :=
  {| environ := match exported with
                | Some value => {[ tokenVariable := value ]}
                | None => ∅
                end;
     dotenv := Some {[ tokenVariable := "hf_token"%string ]};
     files := {[ csvFile := data ]};
     stdin := lines;
     network := client |}.

(** The table of [cityCsv]. *)
Definition cityTable : gmap string (list string) :=
  <["kwh" := ["10"; "20"]]> (<["city" := ["A"; "B"]]> ∅)%string.

(** [unicodeLower] for runs in which every line typed is ASCII. *)
Definition asciiOnly (s : string) : string := s.

(** * Strings *)

Lemma append_cons (c : ascii) (s1 s2 : string) : String c s1 +:+ s2 = String c (s1 +:+ s2).
Proof. reflexivity. Qed.

Lemma append_nil_l (s : string) : EmptyString +:+ s = s.
Proof. reflexivity. Qed.

Lemma append_assoc (s1 s2 s3 : string) : (s1 +:+ s2) +:+ s3 = s1 +:+ (s2 +:+ s3).
Proof.
  induction s1 as [|c s1 IH]; [done|]. by rewrite !append_cons, IH.
Qed.

Lemma append_nil_r (s : string) : s +:+ EmptyString = s.
Proof. induction s as [|c s IH]; [done|]. by rewrite append_cons, IH. Qed.

Lemma length_append (s1 s2 : string) :
  String.length (s1 +:+ s2) = String.length s1 + String.length s2.
Proof.
  induction s1 as [|c s1 IH]; [done|]. rewrite append_cons. simpl. by rewrite IH.
Qed.

Lemma join_cons_cons (sep p q : string) (ps : list string) :
  join sep (p :: q :: ps) = p +:+ sep +:+ join sep (q :: ps).
Proof. reflexivity. Qed.

(** * Properties of the table loader *)

Section Loader.

Implicit Types (rows records : list (list string)) (header record : list string).
Implicit Types (result table : gmap string (list string)) (name col : string).

Lemma column_app i rows1 rows2 :
  column i (rows1 ++ rows2) = column i rows1 ++ column i rows2.
Proof.
  induction rows1 as [|record rows1 IH]; simpl; [done|].
  destruct (record !! i); simpl; by rewrite IH.
Qed.

Lemma appendCell_insert i col acc result record :
  appendCell i col (<[col := acc]> result) record
  = <[col := acc ++ column i [record]]> result.
Proof.
  unfold appendCell. simpl.
  destruct (Nat.ltb_spec i (length record)) as [Hlt|Hge].
  - destruct (lookup_lt_is_Some_2 record i Hlt) as [x Hx].
    rewrite Hx, lookup_insert_eq, insert_insert_eq. reflexivity.
  - rewrite (lookup_ge_None_2 record i) by lia.
    by rewrite app_nil_r.
Qed.

Lemma fold_appendCell i col rows : ∀ acc result,
  fold_left (appendCell i col) rows (<[col := acc]> result)
  = <[col := acc ++ column i rows]> result.
Proof.
  induction rows as [|record rows IH]; intros acc result; cbn [fold_left].
  - by rewrite app_nil_r.
  - rewrite appendCell_insert, IH, <- app_assoc.
    by rewrite <- column_app.
Qed.

(** The inner loop leaves in [result[col]] the cells of position [i]. *)
Lemma fillColumn_insert rows i col result :
  fillColumn rows i col result = <[col := column i rows]> result.
Proof. unfold fillColumn. by rewrite fold_appendCell. Qed.

Lemma rangeHeader_notin rows header : ∀ i result name,
  name ∉ header → rangeHeader rows i header result !! name = result !! name.
Proof.
  induction header as [|col header IH]; intros i result name Hn; simpl; [done|].
  apply not_elem_of_cons in Hn as [Hne Hn].
  rewrite IH, fillColumn_insert by done. by rewrite lookup_insert_ne.
Qed.

Lemma rangeHeader_last rows header : ∀ i result name j,
  header !! j = Some name →
  (∀ j', j < j' → header !! j' ≠ Some name) →
  rangeHeader rows i header result !! name = Some (column (i + j) rows).
Proof.
  induction header as [|col header IH]; intros i result name j Hj Hlast; [done|].
  simpl. destruct j as [|j]; simpl in Hj.
  - injection Hj as ->. rewrite rangeHeader_notin.
    + rewrite fillColumn_insert, lookup_insert_eq. f_equal. f_equal. lia.
    + intros [k Hk]%list_elem_of_lookup. apply (Hlast (S k)); [lia|done].
  - rewrite (IH (S i) _ name j Hj).
    + f_equal. f_equal. lia.
    + intros j' Hlt. apply (Hlast (S j')). lia.
Qed.

Lemma rangeHeader_dom rows header : ∀ i result,
  dom (rangeHeader rows i header result) = list_to_set header ∪ dom result.
Proof.
  induction header as [|col header IH]; intros i result; simpl.
  - by rewrite (left_id_L ∅ (∪)).
  - rewrite IH, fillColumn_insert, dom_insert_L.
    rewrite (assoc_L (∪)). f_equal. apply (comm_L (∪)).
Qed.

Lemma last_occurrence header name :
  name ∈ header →
  ∃ j, header !! j = Some name ∧ ∀ j', j < j' → header !! j' ≠ Some name.
Proof.
  induction header as [|col header IH]; intros Hin; [by apply elem_of_nil in Hin|].
  destruct (decide (name ∈ header)) as [Hin'|Hnin].
  - destruct (IH Hin') as (j & Hj & Hlast). exists (S j). split; [done|].
    intros [|j'] Hlt; [lia|]. simpl. apply Hlast. lia.
  - apply elem_of_cons in Hin as [->|]; [|done]. exists 0. split; [done|].
    intros [|j'] Hlt; [lia|]. simpl. intros Hk. apply Hnin.
    apply list_elem_of_lookup. eauto.
Qed.

(** Every column of the table is the column of some header position. *)
Lemma rangeHeader_columns rows header name (cells : list string) :
  rangeHeader rows 0 header ∅ !! name = Some cells →
  ∃ j, header !! j = Some name ∧ cells = column j rows.
Proof.
  intros Hcol.
  assert (name ∈ header) as Hin.
  { destruct (decide (name ∈ header)) as [|Hn]; [done|].
    rewrite rangeHeader_notin in Hcol by done. by rewrite lookup_empty in Hcol. }
  destruct (last_occurrence header name Hin) as (j & Hj & Hlast).
  rewrite (rangeHeader_last rows header 0 ∅ name j Hj Hlast) in Hcol.
  exists j. split; [done|]. by injection Hcol.
Qed.

Lemma column_length_le j rows : length (column j rows) ≤ length rows.
Proof.
  induction rows as [|record rows IH]; simpl; [lia|].
  destruct (record !! j); simpl; lia.
Qed.

Lemma column_length_full j rows :
  Forall (λ record, j < length record) rows →
  length (column j rows) = length rows.
Proof.
  induction 1 as [|record rows Hj _ IH]; simpl; [done|].
  destruct (lookup_lt_is_Some_2 record j Hj) as [x ->]. simpl. by rewrite IH.
Qed.

(** What [CsvToSlice] returns once the reader has returned records. *)
Lemma CsvToSlice_records data header rows :
  csv.ReadAll (csv.NewReader data) = Ok (header :: rows) →
  CsvToSlice data = Ok (rangeHeader rows 0 header ∅).
Proof. unfold CsvToSlice. by intros ->. Qed.

Lemma CsvToSlice_inv data table :
  CsvToSlice data = Ok table →
  ∃ header rows, csv.ReadAll (csv.NewReader data) = Ok (header :: rows)
    ∧ table = rangeHeader rows 0 header ∅.
Proof.
  unfold CsvToSlice.
  destruct (csv.ReadAll (csv.NewReader data)) as [[|header rows]|e]; simpl;
    [discriminate| |discriminate].
  intros [= <-]. eauto.
Qed.

(** *** The reader *)

(** A record that ends has at least one field more than it had. *)
Lemma parseLine_more ln : ∀ st fields dst,
  csv.parseLine st fields ln = csv.EndRecord dst → length fields < length dst.
Proof.
  induction ln as [|c rest IH]; intros st fields dst H; simpl in H.
  - destruct st; inversion H; subst; rewrite length_app; simpl; lia.
  - destruct st; simpl in H;
      repeat match type of H with
             | (if ?b then _ else _) = _ => destruct b
             end;
      try discriminate;
      try (apply IH in H; rewrite ?length_app in H; simpl in H; lia);
      inversion H; subst; rewrite length_app; simpl; lia.
Qed.

Lemma checkFieldCount_inv fpr records dst n :
  readerInv fpr records → 0 < length dst →
  csv.checkFieldCount fpr dst = Ok n → readerInv n (records ++ [dst]).
Proof.
  unfold csv.checkFieldCount, readerInv, uniformWidth.
  intros [[-> ->]|[Hpos Hall]] Hdst H.
  - simpl in H. injection H as <-. right. split; [lia|].
    by apply Forall_singleton.
  - destruct (Z.ltb_spec 0 fpr); [|lia].
    destruct (Z.eqb_spec (Z.of_nat (length dst)) fpr); simpl in H; [|discriminate].
    injection H as <-. right. split; [done|].
    apply Forall_app. split; [done|]. by apply Forall_singleton.
Qed.

Lemma checkFieldCount_lenient fpr dst :
  (fpr < 0)%Z → csv.checkFieldCount fpr dst = Ok fpr.
Proof.
  intros H. unfold csv.checkFieldCount.
  destruct (Z.ltb_spec 0 fpr); [lia|]. destruct (Z.eqb_spec fpr 0); [lia|done].
Qed.

Lemma checkFieldCount_cases fpr records dst :
  readerInv fpr records → 0 < length dst →
  (∃ n, csv.checkFieldCount fpr dst = Ok n ∧ readerInv n (records ++ [dst])) ∨
  csv.checkFieldCount fpr dst = Err (CsvParseError ErrFieldCount).
Proof.
  intros Hinv Hdst.
  destruct (csv.checkFieldCount fpr dst) as [n|e] eqn:Hc.
  - left. exists n. split; [done|]. by eapply checkFieldCount_inv.
  - right. unfold csv.checkFieldCount in Hc.
    repeat match type of Hc with
           | (if ?b then _ else _) = _ => destruct b
           end; congruence.
Qed.

(** The records a reader returns satisfy what its [FieldsPerRecord] says. *)
Lemma readRecords_inv lines : ∀ fpr partial records out,
  readerInv fpr records →
  csv.readRecords fpr partial lines records = Ok out →
  ∃ n, readerInv n out.
Proof.
  induction lines as [|ln lines IH]; intros fpr partial records out Hinv H; simpl in H.
  - destruct partial; [discriminate|]. injection H as <-. eauto.
  - destruct partial as [[fields buf]|].
    + destruct (csv.parseLine (csv.InQuoted buf) fields ln) as [dst|fs b|e] eqn:Hp;
        [|by eapply IH|discriminate].
      destruct (csv.checkFieldCount fpr dst) as [n|e] eqn:Hc; [|discriminate].
      eapply IH; [|exact H]. eapply checkFieldCount_inv; [done| |done].
      apply parseLine_more in Hp. lia.
    + destruct (String.length ln =? csv.lengthNL ln)%nat; [by eapply IH|].
      destruct (csv.parseLine csv.AtStart [] ln) as [dst|fs b|e] eqn:Hp;
        [|by eapply IH|discriminate].
      destruct (csv.checkFieldCount fpr dst) as [n|e] eqn:Hc; [|discriminate].
      eapply IH; [|exact H]. eapply checkFieldCount_inv; [done| |done].
      apply parseLine_more in Hp. lia.
Qed.

(** The records [reader.ReadAll()] returns all have the same number of
    fields. *)
Lemma ReadAll_uniform data records :
  csv.ReadAll (csv.NewReader data) = Ok records →
  ∃ n, uniformWidth n records.
Proof.
  unfold csv.ReadAll, csv.NewReader. simpl. intros H.
  apply readRecords_inv in H as [n Hn]; [|by left].
  destruct Hn as [[_ ->]|[_ Hn]]; [exists 0%Z; constructor|eauto].
Qed.

(** A reader that checks the field count returns what one that does not
    returns, or stops at a record of the wrong width. *)
Lemma readRecords_strict lines : ∀ lax fpr partial records out,
  (lax < 0)%Z → readerInv fpr records →
  csv.readRecords lax partial lines records = Ok out →
  csv.readRecords fpr partial lines records = Ok out ∨
  csv.readRecords fpr partial lines records = Err (CsvParseError ErrFieldCount).
Proof.
  induction lines as [|ln lines IH]; intros lax fpr partial records out Hlax Hinv H;
    simpl in H |- *.
  - by left.
  - destruct partial as [[fields buf]|].
    + destruct (csv.parseLine (csv.InQuoted buf) fields ln) as [dst|fs b|e] eqn:Hp;
        [|by eapply IH|discriminate].
      rewrite checkFieldCount_lenient in H by done.
      apply parseLine_more in Hp.
      destruct (checkFieldCount_cases fpr records dst Hinv) as [(n & -> & Hn)| ->];
        [lia| |by right].
      by eapply IH.
    + destruct (String.length ln =? csv.lengthNL ln)%nat; [by eapply IH|].
      destruct (csv.parseLine csv.AtStart [] ln) as [dst|fs b|e] eqn:Hp;
        [|by eapply IH|discriminate].
      rewrite checkFieldCount_lenient in H by done.
      apply parseLine_more in Hp.
      destruct (checkFieldCount_cases fpr records dst Hinv) as [(n & -> & Hn)| ->];
        [lia| |by right].
      by eapply IH.
Qed.

Lemma ReadAll_strict data records :
  rowsOf data = Ok records →
  csv.ReadAll (csv.NewReader data) = Ok records ∨
  csv.ReadAll (csv.NewReader data) = Err (CsvParseError ErrFieldCount).
Proof.
  unfold rowsOf, csv.ReadAll. simpl. intros H.
  eapply readRecords_strict; [|by left|exact H]. lia.
Qed.

End Loader.

(** *** Texts the reader reads back *)

Section Render.

Lemma plainByte_inv c :
  plainByte c = true →
  Ascii.eqb c csv.Comma = false ∧ Ascii.eqb c csv.Quote = false
  ∧ Ascii.eqb c csv.LF = false ∧ Ascii.eqb c csv.CR = false.
Proof.
  unfold plainByte. intros H. apply negb_true_iff in H.
  repeat (apply orb_false_elim in H as [H ?]). auto.
Qed.

Lemma parseLine_bare cell : ∀ buf fields tail,
  plain cell = true →
  csv.parseLine (csv.InBare buf) fields (cell +:+ tail)
  = csv.parseLine (csv.InBare (buf +:+ cell)) fields tail.
Proof.
  induction cell as [|c cell IH]; intros buf fields tail Hplain.
  - by rewrite append_nil_r.
  - cbn [plain] in Hplain. apply andb_prop in Hplain as [Hc Hcell].
    apply plainByte_inv in Hc as (Hcomma & Hquote & Hlf & _).
    rewrite append_cons. cbn [csv.parseLine].
    unfold csv.isNL. rewrite Hcomma, Hquote, Hlf. cbn [andb].
    rewrite IH by done. unfold csv.snoc. by rewrite append_assoc.
Qed.

Lemma parseLine_start c cell fields tail :
  plain (String c cell) = true →
  csv.parseLine csv.AtStart fields (String c cell +:+ tail)
  = csv.parseLine (csv.InBare (String c cell)) fields tail.
Proof.
  intros Hplain. cbn [plain] in Hplain. apply andb_prop in Hplain as [Hc Hcell].
  apply plainByte_inv in Hc as (Hcomma & Hquote & Hlf & _).
  rewrite append_cons. cbn [csv.parseLine].
  unfold csv.isNL. rewrite Hcomma, Hquote, Hlf. cbn [andb].
  by rewrite parseLine_bare.
Qed.

(** The fields of a line written without quotes are its cells. *)
Lemma parseLine_record (record : list string) : ∀ fields,
  record ≠ [] →
  Forall (λ cell : string, plain cell = true) record →
  csv.parseLine csv.AtStart fields (renderRecord record)
  = csv.EndRecord (fields ++ record).
Proof.
  unfold renderRecord, line.
  induction record as [|x record IH]; intros fields Hne Hplain; [done|].
  apply Forall_cons in Hplain as [Hx Hrecord].
  destruct record as [|y record].
  - change (join "," [x]) with x.
    destruct x as [|c x]; [reflexivity|].
    by rewrite parseLine_start.
  - rewrite join_cons_cons, !append_assoc.
    specialize (IH (fields ++ [x]) ltac:(done) Hrecord).
    rewrite <- app_assoc in IH. destruct x as [|c x].
    + exact IH.
    + rewrite parseLine_start by done. exact IH.
Qed.

Lemma oneLine_app s1 s2 : oneLine (s1 +:+ s2) = oneLine s1 && oneLine s2.
Proof.
  induction s1 as [|c s1 IH]; [done|]. rewrite append_cons. cbn [oneLine].
  by rewrite IH, andb_assoc.
Qed.

Lemma plain_oneLine cell : plain cell = true → oneLine cell = true.
Proof.
  induction cell as [|c cell IH]; [done|]. cbn [plain oneLine].
  intros [Hc Hcell]%andb_prop. apply plainByte_inv in Hc as (_ & _ & -> & ->).
  by rewrite IH.
Qed.

Lemma oneLine_join (record : list string) :
  Forall (λ cell : string, plain cell = true) record →
  oneLine (join "," record) = true.
Proof.
  induction record as [|x [|y record] IH]; intros Hplain; [done|..].
  - apply Forall_cons in Hplain as [Hx _]. by apply plain_oneLine.
  - apply Forall_cons in Hplain as [Hx Hrecord].
    rewrite join_cons_cons, !oneLine_app, IH, plain_oneLine by done. reflexivity.
Qed.

Lemma readSlices_line s rest :
  oneLine s = true →
  csv.readSlices (line s +:+ rest) = line s :: csv.readSlices rest.
Proof.
  unfold line. induction s as [|c s IH]; intros Hs.
  - reflexivity.
  - cbn [oneLine] in Hs. apply andb_prop in Hs as [Hc Hs].
    apply negb_true_iff, orb_false_elim in Hc as [Hlf _].
    rewrite !append_cons. cbn [csv.readSlices]. rewrite Hlf, IH by done.
    reflexivity.
Qed.

Lemma normLine_line s : oneLine s = true → csv.normLine (line s) = line s.
Proof.
  unfold line. induction s as [|c s IH]; intros Hs; [reflexivity|].
  cbn [oneLine] in Hs. apply andb_prop in Hs as [Hc Hs].
  apply negb_true_iff, orb_false_elim in Hc as [_ Hcr].
  rewrite append_cons. cbn [csv.normLine].
  destruct s as [|d s].
  - cbn. rewrite Hcr. reflexivity.
  - rewrite <- IH at 2 by done. rewrite append_cons.
    destruct (s +:+ String csv.LF EmptyString) eqn:Htail; [|reflexivity].
    destruct s; discriminate.
Qed.

Lemma readLines_render (records : list (list string)) :
  Forall (Forall (λ cell : string, plain cell = true)) records →
  csv.readLines (render records) = renderRecord <$> records.
Proof.
  unfold csv.readLines.
  induction 1 as [|record records Hrecord _ IH]; [reflexivity|].
  cbn [render fold_right]. unfold renderRecord at 1.
  rewrite readSlices_line by (by apply oneLine_join).
  rewrite !fmap_cons, normLine_line by (by apply oneLine_join).
  f_equal. exact IH.
Qed.

Lemma lengthNL_line s : csv.lengthNL (line s) = 1.
Proof.
  unfold csv.lengthNL, line. rewrite length_append. simpl.
  rewrite Nat.add_1_r.
  assert (String.get (String.length s) (s +:+ String csv.LF EmptyString)
          = Some csv.LF) as ->; [|reflexivity].
  induction s as [|c s IH]; [reflexivity|]. exact IH.
Qed.

Lemma renderRecord_not_blank (record : list string) :
  join "," record ≠ EmptyString →
  (String.length (renderRecord record) =? csv.lengthNL (renderRecord record))%nat
  = false.
Proof.
  intros Hne. unfold renderRecord. rewrite lengthNL_line.
  unfold line. rewrite length_append. apply Nat.eqb_neq.
  destruct (join "," record); [done|]. simpl. lia.
Qed.

Lemma plainRecord_not_nil (record : list string) : plainRecord record → record ≠ [].
Proof. intros [_ Hne] ->. by apply Hne. Qed.

(** A reader that expects [n] fields reads lines of [n] plain cells back. *)
Lemma readRecords_render (rows : list (list string)) : ∀ (n : nat) records,
  0 < n →
  Forall plainRecord rows →
  Forall (λ row : list string, length row = n) rows →
  csv.readRecords (Z.of_nat n) None (renderRecord <$> rows) records
  = Ok (records ++ rows).
Proof.
  induction rows as [|row rows IH]; intros n records Hn Hplain Hwidth.
  - simpl. by rewrite app_nil_r.
  - apply Forall_cons in Hplain as [Hrow Hplain].
    apply Forall_cons in Hwidth as [Hlen Hwidth].
    rewrite fmap_cons. cbn [csv.readRecords].
    rewrite renderRecord_not_blank by apply Hrow.
    rewrite parseLine_record; [|by apply plainRecord_not_nil|apply Hrow].
    cbn [app]. unfold csv.checkFieldCount.
    destruct (Z.ltb_spec 0 (Z.of_nat n)); [|lia].
    rewrite Hlen, Z.eqb_refl. cbn [negb].
    rewrite IH by done. by rewrite <- app_assoc.
Qed.

(** The reader of [CsvToSlice] reads a rectangular table of plain cells back
    from its text. *)
Lemma ReadAll_render (header : list string) (rows : list (list string)) :
  Forall plainRecord (header :: rows) →
  Forall (λ row : list string, length row = length header) rows →
  csv.ReadAll (csv.NewReader (render (header :: rows))) = Ok (header :: rows).
Proof.
  intros Hplain Hwidth. unfold csv.ReadAll, csv.NewReader. cbn [csv.r csv.FieldsPerRecord].
  rewrite readLines_render.
  2:{ eapply Forall_impl; [exact Hplain|]. by intros record [? _]. }
  apply Forall_cons in Hplain as [Hheader Hplain].
  rewrite fmap_cons. cbn [csv.readRecords].
  rewrite renderRecord_not_blank by apply Hheader.
  rewrite parseLine_record; [|by apply plainRecord_not_nil|apply Hheader].
  cbn [app]. change (csv.checkFieldCount 0 header) with (Ok (A:=Z) (Z.of_nat (length header))).
  cbv iota. apply (readRecords_render rows (length header) [header]); [|done|done].
  pose proof (plainRecord_not_nil header Hheader). destruct header; [done|simpl; lia].
Qed.

(** A reader that checks no field count reads lines of plain cells back. *)
Lemma readRecords_render_lenient (rows : list (list string)) : ∀ (lax : Z) records,
  (lax < 0)%Z →
  Forall plainRecord rows →
  csv.readRecords lax None (renderRecord <$> rows) records = Ok (records ++ rows).
Proof.
  induction rows as [|row rows IH]; intros lax records Hlax Hplain.
  - simpl. by rewrite app_nil_r.
  - apply Forall_cons in Hplain as [Hrow Hplain].
    rewrite fmap_cons. cbn [csv.readRecords].
    rewrite renderRecord_not_blank by apply Hrow.
    rewrite parseLine_record; [|by apply plainRecord_not_nil|apply Hrow].
    cbn [app]. rewrite checkFieldCount_lenient by done.
    rewrite IH by done. by rewrite <- app_assoc.
Qed.

Lemma rowsOf_render (records : list (list string)) :
  Forall plainRecord records → rowsOf (render records) = Ok records.
Proof.
  intros Hplain. unfold rowsOf, csv.ReadAll. cbn [csv.r csv.FieldsPerRecord].
  rewrite readLines_render.
  2:{ eapply Forall_impl; [exact Hplain|]. by intros record [? _]. }
  by rewrite readRecords_render_lenient.
Qed.

(** A rectangular table of plain cells is loaded from its text. *)
Lemma CsvToSlice_render (header : list string) (rows : list (list string)) :
  Forall plainRecord (header :: rows) →
  Forall (λ row : list string, length row = length header) rows →
  CsvToSlice (render (header :: rows)) = Ok (rangeHeader rows 0 header ∅).
Proof. intros Hplain Hwidth. apply CsvToSlice_records. by apply ReadAll_render. Qed.

(** An input with a data row shorter than its header is not loaded. *)
Lemma short_row_rejected (data : string) (header : list string)
    (rows : list (list string)) (row : list string) :
  rowsOf data = Ok (header :: rows) → row ∈ rows → length row < length header →
  CsvToSlice data = Err (CsvParseError ErrFieldCount).
Proof.
  intros Hrows Hrow Hshort. unfold CsvToSlice.
  destruct (ReadAll_strict data _ Hrows) as [Hread| ->]; [|done].
  exfalso. destruct (ReadAll_uniform _ _ Hread) as [n Hn].
  apply Forall_cons in Hn as [HH Hall].
  rewrite Forall_forall in Hall. specialize (Hall row Hrow). simpl in Hall. lia.
Qed.

Lemma CsvToSlice_render_ragged (header : list string) (rows : list (list string))
    (row : list string) :
  Forall plainRecord (header :: rows) → row ∈ rows → length row < length header →
  CsvToSlice (render (header :: rows)) = Err (CsvParseError ErrFieldCount).
Proof.
  intros Hplain Hrow Hshort.
  apply (short_row_rejected _ header rows row); [|done|done].
  by apply rowsOf_render.
Qed.

End Render.

(** ** The shape of the table *)

(** The records that a reader returns are those it had, and more. *)
Lemma readRecords_extends (lines : list string) : ∀ fpr partial records out,
  csv.readRecords fpr partial lines records = Ok out →
  ∃ more, out = records ++ more.
Proof.
  induction lines as [|ln lines IH]; intros fpr partial records out H; simpl in H.
  - destruct partial; [discriminate|]. injection H as <-. exists []. by rewrite app_nil_r.
  - assert (∀ dst, (match csv.checkFieldCount fpr dst with
                    | Ok n => csv.readRecords n None lines (records ++ [dst])
                    | Err e => Err e
                    end) = Ok out → ∃ more, out = records ++ more) as Hend.
    { intros dst Hdst. destruct (csv.checkFieldCount fpr dst) as [n|e]; [|discriminate].
      apply IH in Hdst as [more ->]. exists (dst :: more). by rewrite <- app_assoc. }
    destruct partial as [[fields buf]|].
    + destruct (csv.parseLine (csv.InQuoted buf) fields ln) as [dst|fs b|e];
        [by eapply Hend|by eapply IH|discriminate].
    + destruct (String.length ln =? csv.lengthNL ln)%nat; [by eapply IH|].
      destruct (csv.parseLine csv.AtStart [] ln) as [dst|fs b|e];
        [by eapply Hend|by eapply IH|discriminate].
Qed.

(** A reader that checks the field count returns the records of one that
    does not, when these all have one width. *)
Lemma readRecords_rectangular (n : Z) (lines : list string) :
  ∀ lax fpr partial records out,
    (lax < 0)%Z →
    (fpr = 0%Z ∧ records = []) ∨ (fpr = n ∧ (0 < n)%Z ∧ records ≠ []) →
    uniformWidth n out →
    csv.readRecords lax partial lines records = Ok out →
    csv.readRecords fpr partial lines records = Ok out.
Proof.
  induction lines as [|ln lines IH]; intros lax fpr partial records out Hlax Hinv Hn H;
    simpl in H |- *; [done|].
  assert (∀ (fields dst : list string),
            length fields < length dst →
            (match csv.checkFieldCount lax dst with
             | Ok n => csv.readRecords n None lines (records ++ [dst])
             | Err e => Err e
             end) = Ok out →
            (match csv.checkFieldCount fpr dst with
             | Ok n => csv.readRecords n None lines (records ++ [dst])
             | Err e => Err e
             end) = Ok out) as Hend.
  { intros fields dst Hmore Hdst. rewrite checkFieldCount_lenient in Hdst by done.
    assert (Z.of_nat (length dst) = n) as Hwidth.
    { destruct (readRecords_extends _ _ _ _ _ Hdst) as [more ->].
      unfold uniformWidth in Hn. rewrite !Forall_app, Forall_singleton in Hn.
      by destruct Hn as [[_ Hdst'] _]. }
    assert (csv.checkFieldCount fpr dst = Ok n) as ->.
    { unfold csv.checkFieldCount. destruct Hinv as [[-> _]|(-> & Hpos & _)].
      - simpl. by rewrite Hwidth.
      - destruct (Z.ltb_spec 0 n); [|lia].
        destruct (Z.eqb_spec (Z.of_nat (length dst)) n); [done|lia]. }
    eapply IH; [exact Hlax| |exact Hn|exact Hdst].
    right. split; [done|]. split; [lia|]. by destruct records. }
  destruct partial as [[fields buf]|].
  - destruct (csv.parseLine (csv.InQuoted buf) fields ln) as [dst|fs b|e] eqn:Hp;
      [|by eapply IH|discriminate].
    apply parseLine_more in Hp. by eapply Hend.
  - destruct (String.length ln =? csv.lengthNL ln)%nat; [by eapply IH|].
    destruct (csv.parseLine csv.AtStart [] ln) as [dst|fs b|e] eqn:Hp;
      [|by eapply IH|discriminate].
    apply parseLine_more in Hp. by eapply Hend.
Qed.

Lemma ReadAll_rectangular (data : string) (header : list string)
    (rows : list (list string)) :
  rowsOf data = Ok (header :: rows) →
  Forall (λ row : list string, length row = length header) rows →
  csv.ReadAll (csv.NewReader data) = Ok (header :: rows).
Proof.
  unfold rowsOf, csv.ReadAll. simpl. intros Hrows Hrect.
  eapply (readRecords_rectangular (Z.of_nat (length header)));
    [|by left| |exact Hrows]; [lia|].
  apply Forall_cons. split; [done|].
  eapply Forall_impl; [exact Hrect|]. intros row Hrow. simpl in Hrow. by rewrite Hrow.
Qed.

(** C5, counterexample.  [unevenCsv] is well formed, with a header of two
    fields and two data rows, the second of which has one field:
    [CsvToSlice] returns the reader's field-count error for it, and no
    table. *)
Lemma C5_uneven_input_has_no_table :
  rowsOf unevenCsv = Ok [["a"; "b"]; ["1"; "2"]; ["3"]]%string
  ∧ CsvToSlice unevenCsv = Err (CsvParseError ErrFieldCount)
  ∧ ¬ ∃ table : gmap string (list string),
        CsvToSlice unevenCsv = Ok table
        ∧ dom table = list_to_set ["a"; "b"]%string
        ∧ ∀ (name : string) (cells : list string),
            table !! name = Some cells → length cells ≤ 2.
Proof.
  split; [vm_compute; reflexivity|].
  assert (CsvToSlice unevenCsv = Err (CsvParseError ErrFieldCount)) as Herr
    by (vm_compute; reflexivity).
  split; [exact Herr|]. intros (table & Htable & _). rewrite Herr in Htable. discriminate.
Qed.

(** C5, amended.  For a well-formed input with header [H] and [R] data rows
    that is rectangular, [CsvToSlice] returns a table whose keys are the
    names in [H] and whose columns all have exactly [R] cells.  For a
    well-formed input that is not rectangular, it returns the reader's
    field-count error and no table. *)
Theorem C5_rectangular_table_shape (data : string) (H : list string)
    (rows : list (list string))
    (Hrows : rowsOf data = Ok (H :: rows)) :
  (Forall (λ row : list string, length row = length H) rows →
   ∃ table : gmap string (list string),
     CsvToSlice data = Ok table
     ∧ dom table = list_to_set H
     ∧ ∀ (name : string) (cells : list string),
         table !! name = Some cells → length cells = length rows)
  ∧ (¬ Forall (λ row : list string, length row = length H) rows →
     CsvToSlice data = Err (CsvParseError ErrFieldCount)).
Proof.
  split.
  - intros Hrect. exists (rangeHeader rows 0 H ∅).
    split; [by apply CsvToSlice_records, ReadAll_rectangular|]. split.
    + by rewrite rangeHeader_dom, dom_empty_L, (right_id_L ∅ (∪)).
    + intros name cells (j & Hj & ->)%rangeHeader_columns.
      apply column_length_full. eapply Forall_impl; [exact Hrect|].
      intros row Hrow. simpl in Hrow. rewrite Hrow. by eapply lookup_lt_Some.
  - intros Hragged. unfold CsvToSlice.
    destruct (ReadAll_strict data _ Hrows) as [Hread| ->]; [|done].
    exfalso. apply Hragged. destruct (ReadAll_uniform _ _ Hread) as [n Hn].
    apply Forall_cons in Hn as [Hheader Hall].
    eapply Forall_impl; [exact Hall|]. intros row Hrow. simpl in Hrow. lia.
Qed.

Lemma C5_rectangular_table_shape_witness :
  (∃ table : gmap string (list string),
     CsvToSlice cityCsv = Ok table
     ∧ dom table = list_to_set ["city"; "kwh"]%string
     ∧ ∀ (name : string) (cells : list string),
         table !! name = Some cells → length cells = 2)
  ∧ CsvToSlice unevenCsv = Err (CsvParseError ErrFieldCount).
Proof.
  split.
  - apply (C5_rectangular_table_shape cityCsv ["city"; "kwh"]%string
             [["A"; "10"]; ["B"; "20"]]%string).
    + vm_compute. reflexivity.
    + repeat constructor.
  - apply (C5_rectangular_table_shape unevenCsv ["a"; "b"]%string
             [["1"; "2"]; ["3"]]%string).
    + vm_compute. reflexivity.
    + intros Hrect. apply Forall_cons in Hrect as [_ Hrect].
      apply Forall_cons in Hrect as [Hrow _]. simpl in Hrow. lia.
Defined.

(** C7.  When the header names several columns alike, the table maps the
    name to one column, the one built from the last position that carries
    the name. *)
Theorem C7_last_duplicate_wins (data : string) (H : list string)
    (rows : list (list string)) (name : string) (i : nat)
    (Hread : csv.ReadAll (csv.NewReader data) = Ok (H :: rows))
    (Hi : H !! i = Some name)
    (Hlast : ∀ j, i < j → H !! j ≠ Some name) :
  ∃ table : gmap string (list string),
    CsvToSlice data = Ok table ∧ table !! name = Some (column i rows).
Proof.
  exists (rangeHeader rows 0 H ∅). split; [by apply CsvToSlice_records|].
  by rewrite (rangeHeader_last rows H 0 ∅ name i Hi Hlast).
Qed.

Lemma C7_last_duplicate_wins_witness :
  ∃ table : gmap string (list string),
    CsvToSlice twiceCsv = Ok table
    ∧ table !! "a"%string
      = Some (column 2 [["1"; "2"; "3"]; ["4"; "5"; "6"]]%string).
Proof.
  apply (C7_last_duplicate_wins twiceCsv ["a"; "b"; "a"]%string
           [["1"; "2"; "3"]; ["4"; "5"; "6"]]%string "a"%string 2).
  - vm_compute. reflexivity.
  - reflexivity.
  - intros [|[|[|j]]] Hj; try lia; simpl; discriminate.
Defined.

(** C6.  [CsvToSlice] returns an error and no table for the empty string,
    for any input that yields no record, and whenever the reader reports a
    quote out of place. *)
Theorem C6_no_rows_or_bad_quoting :
  CsvToSlice EmptyString = Err NoDataFound
  ∧ (∀ data : string,
       csv.ReadAll (csv.NewReader data) = Ok [] → CsvToSlice data = Err NoDataFound)
  ∧ (∀ (data : string) (e : csvErr),
       e = ErrBareQuote ∨ e = ErrQuote →
       csv.ReadAll (csv.NewReader data) = Err (CsvParseError e) →
       CsvToSlice data = Err (CsvParseError e)).
Proof.
  split; [reflexivity|]. split.
  - intros data Hread. unfold CsvToSlice. by rewrite Hread.
  - intros data e _ Hread. unfold CsvToSlice. by rewrite Hread.
Qed.

Lemma C6_no_rows_or_bad_quoting_witness :
  CsvToSlice (line EmptyString +:+ line EmptyString) = Err NoDataFound
  ∧ CsvToSlice bareQuoteCsv = Err (CsvParseError ErrBareQuote).
Proof.
  destruct C6_no_rows_or_bad_quoting as (_ & Hnone & Hquote). split.
  - apply Hnone. vm_compute. reflexivity.
  - apply Hquote; [by left|]. vm_compute. reflexivity.
Defined.

(** C10.  When [CsvToSlice] returns a table, all its columns have the same
    length: the number of records read, less one for the header. *)
Theorem C10_columns_equal_length (data : string) (table : gmap string (list string))
    (Hok : CsvToSlice data = Ok table) :
  ∃ records : list (list string),
    csv.ReadAll (csv.NewReader data) = Ok records
    ∧ ∀ (name : string) (cells : list string),
        table !! name = Some cells → length cells = length records - 1.
Proof.
  apply CsvToSlice_inv in Hok as (header & rows & Hread & ->).
  exists (header :: rows). split; [done|].
  intros name cells (j & Hj & ->)%rangeHeader_columns.
  destruct (ReadAll_uniform _ _ Hread) as [n Hn].
  apply Forall_cons in Hn as [Hheader Hrows].
  simpl. rewrite Nat.sub_0_r. apply column_length_full.
  eapply Forall_impl; [exact Hrows|]. intros row Hrow. simpl in Hrow.
  apply lookup_lt_Some in Hj. lia.
Qed.

Lemma C10_columns_equal_length_witness :
  ∃ records : list (list string),
    csv.ReadAll (csv.NewReader cityCsv) = Ok records
    ∧ ∀ (name : string) (cells : list string),
        (<["kwh" := ["10"; "20"]]> (<["city" := ["A"; "B"]]> ∅) : gmap string (list string))%string
          !! name = Some cells →
        length cells = length records - 1.
Proof.
  apply (C10_columns_equal_length cityCsv).
  vm_compute. reflexivity.
Defined.




(** * Properties of the inference client *)

Section ClientFacts.

Variable c : AIModelConnector.
Variable json_Unmarshal : string → option (gmap string jsonValue).
Variable json_Decode : string → option Response.
Variable outOfRange : float64 → Z.

Local Abbreviation endpoint := (Client c).
Local Abbreviation loop := (retryLoop c json_Unmarshal json_Decode outOfRange).
Local Abbreviation run := (ConnectAIModel c json_Unmarshal json_Decode outOfRange).
Local Abbreviation estimate := (estimatedTimeOf json_Unmarshal).
Local Abbreviation retried := (retryEvents outOfRange).

(** [ConnectAIModel] enters its loop with the request it built. *)
Lemma ConnectAIModel_loop payload token :
  run payload token
  = loop maxRetries 0 (requestAt (json.encodeInputs payload) token 0) [].
Proof. reflexivity. Qed.

(** A call of [c.Client.Do] sends what the shared request still holds and
    leaves its body read. *)
Lemma Client_Do_requestAt data token i :
  Client_Do c i (requestAt data token i)
  = (wireAt data token i, endpoint i (wireAt data token i), requestAt data token (S i)).
Proof. reflexivity. Qed.

(** Turns that end with [continue]: [k] responses in a row, from call [i] on,
    that are 503 with an estimated time. *)
Lemma retryLoop_continue data token (resp : nat → http.Response) (t : nat → float64) :
  ∀ k left i trace,
    (∀ j w, j < k → endpoint (i + j) w = http.Answered (resp (i + j))) →
    (∀ j, j < k → http.StatusCode (resp (i + j)) = http.StatusServiceUnavailable) →
    (∀ j, j < k → estimate (http.RespBody (resp (i + j))) = Some (t (i + j))) →
    k ≤ left →
    loop left i (requestAt data token i) trace
    = loop (left - k) (i + k) (requestAt data token (i + k))
        (trace ++ flat_map (retried data token t) (seq i k)).
Proof.
  induction k as [|k IH]; intros left i trace Hresp H503 Htime Hle.
  - simpl. by rewrite Nat.sub_0_r, Nat.add_0_r, app_nil_r.
  - destruct left as [|left]; [lia|].
    cbn [retryLoop]. rewrite Client_Do_requestAt.
    pose proof (Hresp 0 (wireAt data token i) ltac:(lia)) as Hr.
    pose proof (H503 0 ltac:(lia)) as Hs. pose proof (Htime 0 ltac:(lia)) as Ht.
    rewrite Nat.add_0_r in Hr, Hs, Ht. rewrite Hr, Hs.
    change ((http.StatusServiceUnavailable =? http.StatusOK)%Z) with false.
    change ((http.StatusServiceUnavailable =? http.StatusServiceUnavailable)%Z) with true.
    cbv iota. unfold ioutil_ReadAll. rewrite Ht. rewrite (IH left (S i)).
    + replace (S i + k) with (i + S k) by lia.
      replace (S left - S k) with (left - k) by lia.
      f_equal. rewrite <- !app_assoc. reflexivity.
    + intros j w Hj. replace (S i + j) with (i + S j) by lia. apply Hresp. lia.
    + intros j Hj. replace (S i + j) with (i + S j) by lia. apply H503. lia.
    + intros j Hj. replace (S i + j) with (i + S j) by lia. apply Htime. lia.
    + lia.
Qed.

(** One more turn, whose response ends the loop. *)
Lemma retryLoop_last data token left i trace :
  loop (S left) i (requestAt data token i) trace
  = match endpoint i (wireAt data token i) with
    | http.Failed msg =>
        (Err (TransportError msg), trace ++ [Sent (wireAt data token i)])
    | http.Answered resp =>
        if (http.StatusCode resp =? http.StatusOK)%Z then
          match json_Decode (http.RespBody resp) with
          | None => (Err DecodeError, trace ++ [Sent (wireAt data token i)])
          | Some aiResponse => (Ok aiResponse, trace ++ [Sent (wireAt data token i)])
          end
        else if (http.StatusCode resp =? http.StatusServiceUnavailable)%Z then
          match estimate (http.RespBody resp) with
          | Some estimatedTime =>
              loop left (S i) (requestAt data token (S i))
                ((trace ++ [Sent (wireAt data token i)])
                   ++ [Logged estimatedTime; Slept (sleepFor outOfRange estimatedTime)])
          | None =>
              (Err (StatusError (http.Status resp) EmptyString),
               trace ++ [Sent (wireAt data token i)])
          end
        else (Err (StatusError (http.Status resp) (http.RespBody resp)),
              trace ++ [Sent (wireAt data token i)])
    end.
Proof. cbn [retryLoop]. rewrite Client_Do_requestAt. reflexivity. Qed.

(** Whatever the endpoint answers, the requests sent from call [i] on are
    those the shared request allows, in order. *)
Lemma retryLoop_sends data token : ∀ left i trace,
  ∃ m, m ≤ left
    ∧ sends (loop left i (requestAt data token i) trace).2
      = sends trace ++ (wireAt data token <$> seq i m).
Proof.
  assert (∀ tr w, sends (tr ++ [Sent w]) = sends tr ++ [w]) as Hsent.
  { intros tr w. unfold sends. by rewrite flat_map_app. }
  induction left as [|left IH]; intros i trace.
  - exists 0. split; [lia|]. simpl. by rewrite app_nil_r.
  - rewrite retryLoop_last.
    assert (sends (trace ++ [Sent (wireAt data token i)])
            = sends trace ++ (wireAt data token <$> seq i 1)) as Hone by apply Hsent.
    destruct (endpoint i (wireAt data token i)) as [msg|resp];
      [exists 1; split; [lia|exact Hone]|].
    destruct (http.StatusCode resp =? http.StatusOK)%Z.
    { destruct (json_Decode (http.RespBody resp));
        (exists 1; split; [lia|exact Hone]). }
    destruct (http.StatusCode resp =? http.StatusServiceUnavailable)%Z;
      [|exists 1; split; [lia|exact Hone]].
    destruct (estimate (http.RespBody resp)) as [estimatedTime|];
      [|exists 1; split; [lia|exact Hone]].
    destruct (IH (S i) ((trace ++ [Sent (wireAt data token i)])
                          ++ [Logged estimatedTime;
                              Slept (sleepFor outOfRange estimatedTime)]))
      as (m & Hm & ->).
    exists (S m). split; [lia|].
    unfold sends at 1. rewrite flat_map_app. fold (sends (trace ++ [Sent (wireAt data token i)])).
    rewrite Hsent. simpl. rewrite app_nil_r, <- app_assoc. reflexivity.
Qed.

(** Every request after the first one carries no body, under a
    [ContentLength] that still announces the payload. *)
Lemma retry_body_empty payload token n w :
  sends (run payload token).2 !! S n = Some w →
  http.wBody w = EmptyString
  ∧ http.wContentLength w = Z.of_nat (String.length (json.encodeInputs payload)).
Proof.
  rewrite ConnectAIModel_loop.
  destruct (retryLoop_sends (json.encodeInputs payload) token maxRetries 0 [])
    as (m & _ & ->).
  simpl. rewrite list_lookup_fmap. intros Hw.
  destruct (seq 0 m !! S n) as [j|] eqn:Hj; [|discriminate].
  injection Hw as <-. apply lookup_seq in Hj as [-> _]. by split.
Qed.

(** The argument of [time.Sleep] is the whole number of seconds in the
    estimated time. *)
Lemma sleepFor_truncates (estimatedTime : float64) (z : Z) :
  time.truncate estimatedTime = Some z →
  (0 ≤ z ≤ 9223372036)%Z →
  sleepFor outOfRange estimatedTime = (z * time.Second)%Z.
Proof.
  intros Htrunc Hz. unfold sleepFor, Duration. rewrite Htrunc.
  destruct (Z.leb_spec (- 2 ^ 63) z); [|lia].
  destruct (Z.ltb_spec z (2 ^ 63)); [|lia]. simpl.
  unfold time.int64, time.Second.
  rewrite Z.mod_small by lia. lia.
Qed.

(** ** The retry budget *)

(** C1.  When every response is a 503 whose body holds a numeric
    [estimated_time], [ConnectAIModel] sleeps after each of them, sends ten
    requests and no eleventh, and fails with "max retries reached". *)
Theorem C1_ten_attempts_then_max_retries (payload : Inputs) (token : string)
    (resp : nat → http.Response) (t : nat → float64)
    (Hresp : ∀ i w, i < maxRetries → endpoint i w = http.Answered (resp i))
    (H503 : ∀ i, i < maxRetries →
              http.StatusCode (resp i) = http.StatusServiceUnavailable)
    (Htime : ∀ i, i < maxRetries →
               estimate (http.RespBody (resp i)) = Some (t i)) :
  ∃ trace : list event,
    run payload token = (Err MaxRetriesReached, trace)
    ∧ trace = flat_map (retried (json.encodeInputs payload) token t) (seq 0 maxRetries)
    ∧ length (sends trace) = 10
    ∧ sleeps trace = (λ i, sleepFor outOfRange (t i)) <$> seq 0 10.
Proof.
  eexists. split; [|split; [reflexivity|split; reflexivity]].
  rewrite ConnectAIModel_loop.
  rewrite (retryLoop_continue _ token resp t maxRetries maxRetries 0 []);
    [reflexivity|..]; simpl; auto.
Qed.

(** C8.  After any number of retried calls, [ConnectAIModel] returns at once,
    with no sleep and no further request, when the call fails in the
    transport, when it gets a 503 whose body holds no numeric
    [estimated_time], and when it gets a status other than 200 and 503; in
    the last case the error carries the status and the whole body. *)
Theorem C8_terminal_failures (payload : Inputs) (token : string)
    (resp : nat → http.Response) (t : nat → float64) (k : nat)
    (Hk : k < maxRetries)
    (Hresp : ∀ i w, i < k → endpoint i w = http.Answered (resp i))
    (H503 : ∀ i, i < k → http.StatusCode (resp i) = http.StatusServiceUnavailable)
    (Htime : ∀ i, i < k → estimate (http.RespBody (resp i)) = Some (t i)) :
  (∀ msg : string,
     endpoint k (wireAt (json.encodeInputs payload) token k) = http.Failed msg →
     run payload token
     = (Err (TransportError msg),
        flat_map (retried (json.encodeInputs payload) token t) (seq 0 k)
          ++ [Sent (wireAt (json.encodeInputs payload) token k)]))
  ∧ (∀ last : http.Response,
       endpoint k (wireAt (json.encodeInputs payload) token k) = http.Answered last →
       http.StatusCode last = http.StatusServiceUnavailable →
       estimate (http.RespBody last) = None →
       run payload token
       = (Err (StatusError (http.Status last) EmptyString),
          flat_map (retried (json.encodeInputs payload) token t) (seq 0 k)
            ++ [Sent (wireAt (json.encodeInputs payload) token k)]))
  ∧ (∀ last : http.Response,
       endpoint k (wireAt (json.encodeInputs payload) token k) = http.Answered last →
       http.StatusCode last ≠ http.StatusOK →
       http.StatusCode last ≠ http.StatusServiceUnavailable →
       run payload token
       = (Err (StatusError (http.Status last) (http.RespBody last)),
          flat_map (retried (json.encodeInputs payload) token t) (seq 0 k)
            ++ [Sent (wireAt (json.encodeInputs payload) token k)])).
Proof.
  set (data := json.encodeInputs payload).
  assert (run payload token
          = loop (S (maxRetries - S k)) k (requestAt data token k)
              (flat_map (retried data token t) (seq 0 k))) as Hrun.
  { rewrite ConnectAIModel_loop. fold data.
    rewrite (retryLoop_continue data token resp t k maxRetries 0 []); simpl; auto;
      [|lia].
    replace (maxRetries - k) with (S (maxRetries - S k))
      by (unfold maxRetries in *; lia).
    reflexivity. }
  rewrite Hrun, retryLoop_last. split; [|split].
  - by intros msg ->.
  - intros last -> H503' Hnone. rewrite H503', Hnone. reflexivity.
  - intros last -> H200 H503'.
    destruct (Z.eqb_spec (http.StatusCode last) http.StatusOK); [done|].
    destruct (Z.eqb_spec (http.StatusCode last) http.StatusServiceUnavailable); done.
Qed.

End ClientFacts.

Lemma C1_ten_attempts_then_max_retries_witness :
  ∃ trace : list event,
    ConnectAIModel (mkConnector alwaysLoading) sampleUnmarshal sampleDecode amd64
      samplePayload "hf_token"
    = (Err MaxRetriesReached, trace)
    ∧ trace = flat_map (retryEvents amd64 (json.encodeInputs samplePayload) "hf_token"
                          (λ _, centisecond)) (seq 0 maxRetries)
    ∧ length (sends trace) = 10
    ∧ sleeps trace = (λ i, sleepFor amd64 centisecond) <$> seq 0 10.
Proof.
  apply (C1_ten_attempts_then_max_retries (mkConnector alwaysLoading) sampleUnmarshal sampleDecode
           amd64 samplePayload "hf_token" (λ _, loading) (λ _, centisecond)).
  - reflexivity.
  - reflexivity.
  - intros i _. vm_compute. reflexivity.
Defined.

Lemma C8_terminal_failures_witness :
  ConnectAIModel (mkConnector (thenFails (http.Failed "dial tcp: connection refused")))
    sampleUnmarshal sampleDecode amd64 samplePayload "hf_token"
  = (Err (TransportError "dial tcp: connection refused"),
     flat_map (retryEvents amd64 (json.encodeInputs samplePayload) "hf_token"
                 (λ _, centisecond)) (seq 0 2)
       ++ [Sent (wireAt (json.encodeInputs samplePayload) "hf_token" 2)])
  ∧ ConnectAIModel (mkConnector (thenFails (http.Answered unavailable)))
      sampleUnmarshal sampleDecode amd64 samplePayload "hf_token"
    = (Err (StatusError "503 Service Unavailable" EmptyString),
       flat_map (retryEvents amd64 (json.encodeInputs samplePayload) "hf_token"
                   (λ _, centisecond)) (seq 0 2)
         ++ [Sent (wireAt (json.encodeInputs samplePayload) "hf_token" 2)])
  ∧ ConnectAIModel (mkConnector (thenFails (http.Answered forbidden)))
      sampleUnmarshal sampleDecode amd64 samplePayload "hf_token"
    = (Err (StatusError "403 Forbidden" "Authorization header is invalid"),
       flat_map (retryEvents amd64 (json.encodeInputs samplePayload) "hf_token"
                   (λ _, centisecond)) (seq 0 2)
         ++ [Sent (wireAt (json.encodeInputs samplePayload) "hf_token" 2)]).
Proof.
  assert (∀ last i (w : http.Wire), i < 2 → thenFails last i w = http.Answered loading)
    as Hresp by (intros last [|[|i]] w Hi; [reflexivity|reflexivity|lia]).
  assert (∀ i, i < 2 → http.StatusCode loading = http.StatusServiceUnavailable)
    as H503 by reflexivity.
  assert (∀ i, i < 2 → estimatedTimeOf sampleUnmarshal (http.RespBody loading)
                       = Some centisecond)
    as Htime by (intros i _; vm_compute; reflexivity).
  assert (2 < maxRetries) as Hk by (unfold maxRetries; lia).
  split; [|split].
  - destruct (C8_terminal_failures (mkConnector (thenFails (http.Failed "dial tcp: connection refused")))
                sampleUnmarshal sampleDecode amd64 samplePayload "hf_token"
                (λ _, loading) (λ _, centisecond) 2 Hk (Hresp _) H503 Htime)
      as (Hfail & _ & _).
    apply Hfail. reflexivity.
  - destruct (C8_terminal_failures (mkConnector (thenFails (http.Answered unavailable)))
                sampleUnmarshal sampleDecode amd64 samplePayload "hf_token"
                (λ _, loading) (λ _, centisecond) 2 Hk (Hresp _) H503 Htime)
      as (_ & Hnotime & _).
    apply (Hnotime unavailable); [reflexivity|reflexivity|].
    vm_compute. reflexivity.
  - destruct (C8_terminal_failures (mkConnector (thenFails (http.Answered forbidden)))
                sampleUnmarshal sampleDecode amd64 samplePayload "hf_token"
                (λ _, loading) (λ _, centisecond) 2 Hk (Hresp _) H503 Htime)
      as (_ & _ & Hother).
    apply (Hother forbidden); [reflexivity|discriminate|discriminate].
Defined.

(** ** The retried request *)

(** C3, at a failing input.  The endpoint answers 503 with an estimated time,
    then 200.  [ConnectAIModel] returns the decoded answer, but its second
    request carries no body: the first call read the shared body reader to
    its end. *)
Theorem C3_retry_sends_no_body :
  ConnectAIModel (mkConnector loadingOnce) sampleUnmarshal sampleDecode amd64 samplePayload "hf_token"
  = (Ok sampleAnswer,
     [Sent (wireAt (json.encodeInputs samplePayload) "hf_token" 0);
      Logged centisecond; Slept 0;
      Sent (wireAt (json.encodeInputs samplePayload) "hf_token" 1)])
  ∧ http.wBody (wireAt (json.encodeInputs samplePayload) "hf_token" 0)
    = json.encodeInputs samplePayload
  ∧ http.wBody (wireAt (json.encodeInputs samplePayload) "hf_token" 1) = EmptyString
  ∧ http.wBody (wireAt (json.encodeInputs samplePayload) "hf_token" 1)
    ≠ http.wBody (wireAt (json.encodeInputs samplePayload) "hf_token" 0).
Proof.
  split; [vm_compute; reflexivity|].
  split; [reflexivity|]. split; [reflexivity|].
  vm_compute. discriminate.
Qed.

(** ** The length of the sleep *)

(** [centisecond] is a binary64, and the one closest to 0.01: it is within
    half a unit in the last place, 2^-60, of 1/100. *)
Lemma centisecond_nearest :
  valid_binary 53 1024 centisecond = true
  ∧ (Z.abs (100 * 5764607523034235 - 2 ^ 59) ≤ 50)%Z.
Proof. split; [reflexivity|]. simpl. lia. Qed.

(** One and a half seconds are slept as one. *)
Lemma sleepFor_one_and_a_half (outOfRange : float64 → Z) :
  sleepFor outOfRange (S754_finite false 3 (-1)) = time.Second.
Proof. reflexivity. Qed.

(** C4, at a failing input.  For an estimated time of 0.01 seconds
    [ConnectAIModel] calls [time.Sleep] with 0 nanoseconds, which is not a
    pause of 0.01 seconds; ten million nanoseconds would be. *)
Theorem C4_sleep_discards_fraction :
  estimatedTimeOf sampleUnmarshal loadingBody = Some centisecond
  ∧ (∀ outOfRange : float64 → Z, sleepFor outOfRange centisecond = 0%Z)
  ∧ sleeps (ConnectAIModel (mkConnector loadingOnce) sampleUnmarshal sampleDecode amd64
              samplePayload "hf_token").2 = [0%Z]
  ∧ ¬ lastsSeconds (time.Sleep 0) centisecond
  ∧ lastsSeconds (time.Sleep 10000000) centisecond.
Proof.
  split; [vm_compute; reflexivity|]. split; [reflexivity|].
  split; [vm_compute; reflexivity|].
  unfold lastsSeconds, centisecond, time.Second, time.Sleep. simpl. lia.
Qed.

(** * Properties of the payload encoding *)

Section JsonFacts.

Implicit Types (s rest tail : string) (b c : ascii).

(** A byte that is not ASCII is no quote, no backslash and no control byte. *)
Lemma high_byte_plain b :
  (utf8.byte b <? 0x80)%N = false →
  Ascii.eqb b json.Quote = false ∧ Ascii.eqb b json.Backslash = false
  ∧ (utf8.byte b <? 0x20)%N = false.
Proof.
  intros H. repeat split.
  - destruct (Ascii.eqb_spec b json.Quote) as [->|]; [|done]. discriminate H.
  - destruct (Ascii.eqb_spec b json.Backslash) as [->|]; [|done]. discriminate H.
  - apply N.ltb_ge. apply N.ltb_ge in H. lia.
Qed.

Lemma unquote_escapeByte b tail :
  (utf8.byte b <? 0x80)%N = true →
  json.unquote (json.escapeByte b +:+ tail)
  = json.prefix (String b EmptyString) (json.unquote tail).
Proof.
  destruct b as [[] [] [] [] [] [] [] []]; intros H; try discriminate H; reflexivity.
Qed.


Lemma unquote_plain c s1 :
  (utf8.byte c <? 0x80)%N = false →
  json.unquote (String c s1)
  = match utf8.DecodeRuneInString (String c s1), s1 with
    | 1, _ => json.prefix (String c EmptyString) (json.unquote s1)
    | 2, String b1 s2 =>
        json.prefix (String c (String b1 EmptyString)) (json.unquote s2)
    | 3, String b1 (String b2 s3) =>
        json.prefix (String c (String b1 (String b2 EmptyString))) (json.unquote s3)
    | 4, String b1 (String b2 (String b3 s4)) =>
        json.prefix (String c (String b1 (String b2 (String b3 EmptyString))))
          (json.unquote s4)
    | _, _ => json.prefix utf8.RuneError (json.unquote s1)
    end.
Proof.
  intros (Hq & Hb & Hc)%high_byte_plain.
  cbn [json.unquote]. rewrite Hq, Hb, Hc. reflexivity.
Qed.

Lemma decode2 b0 b1 s2 :
  utf8.DecodeRuneInString (String b0 (String b1 s2)) = 2 →
  (utf8.byte b0 <? 0x80)%N = false
  ∧ ∀ tail, utf8.DecodeRuneInString (String b0 (String b1 tail)) = 2.
Proof.
  unfold utf8.DecodeRuneInString.
  destruct (utf8.byte b0 <? 0x80)%N; [discriminate|].
  destruct (utf8.between 0xC2 0xDF b0).
  { destruct (utf8.second b0 b1); [done|discriminate]. }
  destruct (utf8.between 0xE0 0xEF b0).
  { destruct s2 as [|b2 s3]; [discriminate|].
    destruct (utf8.second b0 b1 && utf8.between utf8.locb utf8.hicb b2); discriminate. }
  destruct (utf8.between 0xF0 0xF4 b0); [|discriminate].
  destruct s2 as [|b2 [|b3 s4]]; try discriminate.
  destruct (utf8.second b0 b1 && utf8.between utf8.locb utf8.hicb b2
            && utf8.between utf8.locb utf8.hicb b3); discriminate.
Qed.

Lemma decode3 b0 b1 b2 s3 :
  utf8.DecodeRuneInString (String b0 (String b1 (String b2 s3))) = 3 →
  (utf8.byte b0 <? 0x80)%N = false
  ∧ ∀ tail, utf8.DecodeRuneInString (String b0 (String b1 (String b2 tail))) = 3.
Proof.
  unfold utf8.DecodeRuneInString.
  destruct (utf8.byte b0 <? 0x80)%N; [discriminate|].
  destruct (utf8.between 0xC2 0xDF b0).
  { destruct (utf8.second b0 b1); discriminate. }
  destruct (utf8.between 0xE0 0xEF b0).
  { destruct (utf8.second b0 b1 && utf8.between utf8.locb utf8.hicb b2);
      [done|discriminate]. }
  destruct (utf8.between 0xF0 0xF4 b0); [|discriminate].
  destruct s3 as [|b3 s4]; try discriminate.
  destruct (utf8.second b0 b1 && utf8.between utf8.locb utf8.hicb b2
            && utf8.between utf8.locb utf8.hicb b3); discriminate.
Qed.

Lemma decode4 b0 b1 b2 b3 s4 :
  utf8.DecodeRuneInString (String b0 (String b1 (String b2 (String b3 s4)))) = 4 →
  (utf8.byte b0 <? 0x80)%N = false
  ∧ ∀ tail,
      utf8.DecodeRuneInString (String b0 (String b1 (String b2 (String b3 tail)))) = 4.
Proof.
  unfold utf8.DecodeRuneInString.
  destruct (utf8.byte b0 <? 0x80)%N; [discriminate|].
  destruct (utf8.between 0xC2 0xDF b0).
  { destruct (utf8.second b0 b1); discriminate. }
  destruct (utf8.between 0xE0 0xEF b0).
  { destruct (utf8.second b0 b1 && utf8.between utf8.locb utf8.hicb b2); discriminate. }
  destruct (utf8.between 0xF0 0xF4 b0); [|discriminate].
  destruct (utf8.second b0 b1 && utf8.between utf8.locb utf8.hicb b2
            && utf8.between utf8.locb utf8.hicb b3); [done|discriminate].
Qed.

Lemma decode1 b0 s1 :
  utf8.DecodeRuneInString (String b0 s1) = 1 → (utf8.byte b0 <? 0x80)%N = true.
Proof.
  unfold utf8.DecodeRuneInString.
  destruct (utf8.byte b0 <? 0x80)%N; [done|].
  destruct (utf8.between 0xC2 0xDF b0).
  { destruct s1 as [|b1 s2]; [discriminate|]. destruct (utf8.second b0 b1); discriminate. }
  destruct (utf8.between 0xE0 0xEF b0).
  { destruct s1 as [|b1 [|b2 s3]]; try discriminate.
    destruct (utf8.second b0 b1 && utf8.between utf8.locb utf8.hicb b2); discriminate. }
  destruct (utf8.between 0xF0 0xF4 b0); [|discriminate].
  destruct s1 as [|b1 [|b2 [|b3 s4]]]; try discriminate.
  destruct (utf8.second b0 b1 && utf8.between utf8.locb utf8.hicb b2
            && utf8.between utf8.locb utf8.hicb b3); discriminate.
Qed.

(** The escape of a line separator is read back as its three bytes. *)
Lemma unquote_lineSep b0 b1 b2 tail :
  json.isLineSep b0 b1 b2 = true →
  json.unquote ("\u202" +:+ String (json.hex (N.land (utf8.byte b2) 0xF)) tail)
  = json.prefix (String b0 (String b1 (String b2 EmptyString))) (json.unquote tail).
Proof.
  unfold json.isLineSep. intros H.
  apply andb_prop in H as [H H2]. apply andb_prop in H as [H0 H1].
  apply N.eqb_eq in H0, H1.
  assert (b0 = ascii_of_N 0xE2) as -> by (by rewrite <- H0, ascii_N_embedding).
  assert (b1 = ascii_of_N 0x80) as -> by (by rewrite <- H1, ascii_N_embedding).
  apply orb_prop in H2 as [H2|H2]; apply N.eqb_eq in H2.
  - assert (b2 = ascii_of_N 0xA8) as -> by (by rewrite <- H2, ascii_N_embedding).
    reflexivity.
  - assert (b2 = ascii_of_N 0xA9) as -> by (by rewrite <- H2, ascii_N_embedding).
    reflexivity.
Qed.


(** [unquote] reads back what [escape] writes for a string that is valid
    UTF-8. *)
Lemma unquote_escape_bounded n : ∀ s rest,
  String.length s ≤ n →
  utf8.ValidString s = true →
  json.unquote (json.escape s +:+ String json.Quote rest) = Some (s, rest).
Proof.
  induction n as [|n IH]; intros s rest Hlen Hvalid.
  { destruct s; [reflexivity|simpl in Hlen; lia]. }
  destruct s as [|b0 s1]; [reflexivity|].
  cbn [json.escape utf8.ValidString] in Hvalid |- *.
  destruct (utf8.DecodeRuneInString (String b0 s1)) as [|[|[|[|[|k]]]]] eqn:Hd.
  - discriminate.
  - apply decode1 in Hd.
    rewrite append_assoc, unquote_escapeByte by done.
    rewrite IH; [reflexivity| |done]. simpl in Hlen. lia.
  - destruct s1 as [|b1 s2]; [discriminate|].
    apply decode2 in Hd as [Hhigh Hd].
    rewrite !append_cons, unquote_plain, Hd by done.
    rewrite IH; [reflexivity| |done]. simpl in Hlen. lia.
  - destruct s1 as [|b1 [|b2 s3]]; try discriminate.
    apply decode3 in Hd as [Hhigh Hd].
    destruct (json.isLineSep b0 b1 b2) eqn:Hsep.
    + transitivity (json.prefix (String b0 (String b1 (String b2 EmptyString)))
                      (json.unquote (json.escape s3 +:+ String json.Quote rest))).
      { exact (unquote_lineSep b0 b1 b2 _ Hsep). }
      rewrite IH; [reflexivity| |done]. simpl in Hlen. lia.
    + rewrite !append_cons, unquote_plain, Hd by done.
      rewrite IH; [reflexivity| |done]. simpl in Hlen. lia.
  - destruct s1 as [|b1 [|b2 [|b3 s4]]]; try discriminate.
    apply decode4 in Hd as [Hhigh Hd].
    rewrite !append_cons, unquote_plain, Hd by done.
    rewrite IH; [reflexivity| |done]. simpl in Hlen. lia.
  - destruct s1 as [|b1 [|b2 [|b3 s4]]]; discriminate.
Qed.

Lemma unquote_escape s rest :
  utf8.ValidString s = true →
  json.unquote (json.escape s +:+ String json.Quote rest) = Some (s, rest).
Proof. by apply (unquote_escape_bounded (String.length s)). Qed.

Lemma decodeString_appendString s rest :
  utf8.ValidString s = true →
  json.decodeString (json.appendString s +:+ rest) = Some (s, rest).
Proof.
  intros Hvalid. unfold json.appendString, json.decodeString.
  rewrite append_cons, append_assoc, append_cons, append_nil_l.
  rewrite Ascii.eqb_refl. by apply unquote_escape.
Qed.


(** *** Arrays *)

Lemma appendString_cons s :
  json.appendString s = String json.Quote (json.escape s +:+ String json.Quote EmptyString).
Proof. reflexivity. Qed.

Lemma length_join_appendString (v : list string) :
  length v ≤ String.length (join "," (json.appendString <$> v)).
Proof.
  induction v as [|x [|y v] IH]; [simpl; lia|simpl; lia|].
  rewrite !fmap_cons in *.
  rewrite join_cons_cons, appendString_cons, !length_append.
  simpl in *. lia.
Qed.

Lemma elements_step turns s x d s2 :
  json.decodeString s = Some (x, String d s2) →
  json.elements (S turns) s
  = if Ascii.eqb d ","
    then match json.elements turns s2 with
         | Some (xs, rest) => Some (x :: xs, rest)
         | None => None
         end
    else if Ascii.eqb d "]" then Some ([x], s2) else None.
Proof. intros H. cbn [json.elements]. by rewrite H. Qed.

Lemma elements_join (v : list string) : ∀ turns rest,
  v ≠ [] → length v ≤ turns → validCells v →
  json.elements turns (join "," (json.appendString <$> v) +:+ "]" +:+ rest)
  = Some (v, rest).
Proof.
  induction v as [|x v IH]; intros turns rest Hne Hturns Hvalid; [done|].
  apply Forall_cons in Hvalid as [Hx Hv].
  destruct turns as [|turns]; [simpl in Hturns; lia|].
  destruct v as [|y v].
  - change (join "," (json.appendString <$> [x])) with (json.appendString x).
    rewrite (elements_step turns _ x "]" rest); [reflexivity|].
    by apply decodeString_appendString.
  - rewrite (fmap_cons _ x), (fmap_cons _ y), join_cons_cons, !append_assoc.
    rewrite <- (fmap_cons json.appendString y).
    rewrite (elements_step turns _ x ","
               (join "," (json.appendString <$> (y :: v)) +:+ "]" +:+ rest)).
    + change (Ascii.eqb "," ",") with true. cbv iota.
      rewrite IH; [reflexivity|done| |done]. simpl in Hturns |- *. lia.
    + by apply decodeString_appendString.
Qed.

Lemma decodeSlice_encodeSlice (v : list string) rest :
  validCells v →
  json.decodeSlice (json.encodeSlice v +:+ rest) = Some (v, rest).
Proof.
  intros Hvalid. destruct v as [|x v]; [reflexivity|].
  unfold json.encodeSlice. rewrite !append_assoc.
  assert (∃ tail, join "," (json.appendString <$> (x :: v)) +:+ "]" +:+ rest
                  = String json.Quote tail) as [tail Htail].
  { destruct v as [|y v]; eexists; reflexivity. }
  change ("[" +:+ join "," (json.appendString <$> (x :: v)) +:+ "]" +:+ rest)
    with (String "[" (join "," (json.appendString <$> (x :: v)) +:+ "]" +:+ rest)).
  rewrite Htail.
  change (json.decodeSlice (String "[" (String json.Quote tail)))
    with (json.elements (String.length (String json.Quote tail)) (String json.Quote tail)).
  rewrite <- Htail. apply elements_join; [done| |done].
  rewrite length_append. pose proof (length_join_appendString (x :: v)). lia.
Qed.


(** *** Objects *)

Lemma encodeEntry_cons (kv : string * list string) :
  ∃ tail, json.encodeEntry kv = String json.Quote tail ∧ 0 < String.length tail.
Proof.
  unfold json.encodeEntry. rewrite appendString_cons, append_cons.
  eexists. split; [reflexivity|]. rewrite !length_append. simpl. lia.
Qed.

Lemma length_join_encodeEntry (kvs : list (string * list string)) :
  length kvs ≤ String.length (join "," (json.encodeEntry <$> kvs)).
Proof.
  induction kvs as [|x [|y kvs] IH]; [simpl; lia| |].
  - destruct (encodeEntry_cons x) as (tail & Hx & _).
    change (join "," (json.encodeEntry <$> [x])) with (json.encodeEntry x).
    rewrite Hx. simpl. lia.
  - rewrite (fmap_cons _ x), (fmap_cons _ y), join_cons_cons.
    rewrite <- (fmap_cons json.encodeEntry y), !length_append.
    destruct (encodeEntry_cons x) as (tail & -> & _). simpl in *. lia.
Qed.

Lemma members_step turns s k v d s2 s3 m :
  json.decodeString s = Some (k, String ":" s2) →
  json.decodeSlice s2 = Some (v, String d s3) →
  json.members (S turns) s m
  = if Ascii.eqb d "," then json.members turns s3 (<[k := v]> m)
    else if Ascii.eqb d "}" then Some (<[k := v]> m, s3) else None.
Proof. intros H1 H2. cbn [json.members]. rewrite H1. cbv iota beta. by rewrite H2. Qed.

Lemma members_entry turns (kv : string * list string) d s3 m :
  validEntry kv →
  json.members (S turns) (json.encodeEntry kv +:+ String d s3) m
  = if Ascii.eqb d "," then json.members turns s3 (store m kv)
    else if Ascii.eqb d "}" then Some (store m kv, s3) else None.
Proof.
  intros [Hk Hv]. unfold json.encodeEntry. rewrite !append_assoc.
  apply (members_step turns _ kv.1 kv.2 d (json.encodeSlice kv.2 +:+ String d s3)).
  - by apply decodeString_appendString.
  - by apply decodeSlice_encodeSlice.
Qed.

Lemma members_join (kvs : list (string * list string)) : ∀ turns rest m,
  kvs ≠ [] → length kvs ≤ turns → Forall validEntry kvs →
  json.members turns (join "," (json.encodeEntry <$> kvs) +:+ "}" +:+ rest) m
  = Some (fold_left store kvs m, rest).
Proof.
  induction kvs as [|x kvs IH]; intros turns rest m Hne Hturns Hvalid; [done|].
  apply Forall_cons in Hvalid as [Hx Hv].
  destruct turns as [|turns]; [simpl in Hturns; lia|].
  destruct kvs as [|y kvs].
  - change (join "," (json.encodeEntry <$> [x])) with (json.encodeEntry x).
    exact (members_entry turns x "}" rest m Hx).
  - rewrite (fmap_cons _ x), (fmap_cons _ y), join_cons_cons, !append_assoc.
    rewrite <- (fmap_cons json.encodeEntry y).
    etransitivity;
      [exact (members_entry turns x ","
                (join "," (json.encodeEntry <$> (y :: kvs)) +:+ "}" +:+ rest) m Hx)|].
    change (Ascii.eqb "," ",") with true. cbv iota.
    rewrite IH; [reflexivity|done| |done]. simpl in Hturns |- *. lia.
Qed.

Lemma decodeMap_entries (kvs : list (string * list string)) rest :
  Forall validEntry kvs →
  json.decodeMap ("{" +:+ join "," (json.encodeEntry <$> kvs) +:+ "}" +:+ rest)
  = Some (fold_left store kvs ∅, rest).
Proof.
  intros Hvalid. destruct kvs as [|x kvs]; [reflexivity|].
  assert (∃ tail, join "," (json.encodeEntry <$> (x :: kvs)) +:+ "}" +:+ rest
                  = String json.Quote tail) as [tail Htail].
  { destruct (encodeEntry_cons x) as (tail & Hx & _).
    destruct kvs as [|y kvs].
    - change (join "," (json.encodeEntry <$> [x])) with (json.encodeEntry x).
      rewrite Hx. eexists. reflexivity.
    - rewrite (fmap_cons _ x), (fmap_cons _ y), join_cons_cons, Hx.
      eexists. reflexivity. }
  change ("{" +:+ join "," (json.encodeEntry <$> (x :: kvs)) +:+ "}" +:+ rest)
    with (String "{" (join "," (json.encodeEntry <$> (x :: kvs)) +:+ "}" +:+ rest)).
  rewrite Htail.
  change (json.decodeMap (String "{" (String json.Quote tail)))
    with (json.members (String.length (String json.Quote tail)) (String json.Quote tail) ∅).
  rewrite <- Htail. apply members_join; [done| |done].
  rewrite length_append. pose proof (length_join_encodeEntry (x :: kvs)). lia.
Qed.

(** Storing the entries of a list without repeated keys, in any order, makes
    the map the list stands for. *)
Lemma fold_store_lookup (kvs : list (string * list string)) : ∀ m k,
  fold_left store kvs m !! k
  = match (list_to_map (reverse kvs) : gmap string (list string)) !! k with
    | Some v => Some v
    | None => m !! k
    end.
Proof.
  induction kvs as [|[k' v'] kvs IH]; intros m k; [done|].
  cbn [fold_left]. rewrite IH, reverse_cons.
  unfold store. simpl.
  destruct (list_to_map (reverse kvs) !! k) as [v|] eqn:Hk.
  - assert ((list_to_map (reverse kvs ++ [(k', v')]) : gmap string (list string)) !! k
            = Some v) as ->; [|done].
    rewrite list_to_map_app. by apply lookup_union_Some_l.
  - rewrite list_to_map_app, lookup_union_r by done. simpl.
    destruct (decide (k' = k)) as [->|Hne].
    + by rewrite !lookup_insert_eq.
    + by rewrite !lookup_insert_ne, lookup_empty.
Qed.

Lemma fold_store_sorted (m : gmap string (list string)) :
  fold_left store (merge_sort json.keyLe (map_to_list m)) ∅ = m.
Proof.
  apply map_eq. intros k. rewrite fold_store_lookup, lookup_empty.
  assert ((list_to_map (reverse (merge_sort json.keyLe (map_to_list m)))
            : gmap string (list string)) = m) as ->.
  { rewrite <- (list_to_map_to_list m) at 2. apply list_to_map_proper.
    - eapply NoDup_Permutation_proper; [|apply (NoDup_fst_map_to_list m)].
      apply fmap_Permutation.
      etransitivity; [apply reverse_Permutation|apply merge_sort_Permutation].
    - etransitivity; [apply reverse_Permutation|apply merge_sort_Permutation]. }
  by destruct (m !! k).
Qed.

Lemma decodeMap_encodeMap (m : gmap string (list string)) rest :
  validTable m →
  json.decodeMap (json.encodeMap m +:+ rest) = Some (m, rest).
Proof.
  intros Hvalid. unfold json.encodeMap. rewrite !append_assoc.
  rewrite decodeMap_entries; [by rewrite fold_store_sorted|].
  rewrite (merge_sort_Permutation json.keyLe (map_to_list m)).
  apply Forall_forall. intros [k v] Hkv.
  apply elem_of_map_to_list in Hkv. exact (Hvalid k v Hkv).
Qed.


(** *** The payload *)

Lemma fields_step turns s k s1 v :
  json.decodeString s = Some (k, String ":" s1) →
  json.fields (S turns) s v
  = if String.eqb k "table" then
      json.fieldsNext (json.fields turns)
        (match json.decodeMap s1 with
         | Some (t, rest) => Some (mkInputs t (Query v), rest)
         | None => None
         end)
    else if String.eqb k "query" then
      json.fieldsNext (json.fields turns)
        (match json.decodeString s1 with
         | Some (x, rest) => Some (mkInputs (Table v) x, rest)
         | None => None
         end)
    else None.
Proof. intros H. cbn [json.fields]. by rewrite H. Qed.

Lemma fields_encodeInputs (t : gmap string (list string)) (q : string) turns v0 :
  validTable t → utf8.ValidString q = true →
  json.fields (S (S turns))
    (json.appendString "table" +:+ ":" +:+ json.encodeMap t +:+ ","
       +:+ json.appendString "query" +:+ ":" +:+ json.appendString q +:+ "}") v0
  = Some (mkInputs t q, EmptyString).
Proof.
  intros Ht Hq.
  rewrite (fields_step (S turns) _ "table"
             (json.encodeMap t +:+ "," +:+ json.appendString "query" +:+ ":"
                +:+ json.appendString q +:+ "}"));
    [|by apply decodeString_appendString].
  change (String.eqb "table" "table") with true. cbv iota.
  rewrite decodeMap_encodeMap by done.
  change (json.fieldsNext (json.fields (S turns))
            (Some (mkInputs t (Query v0),
                   "," +:+ json.appendString "query" +:+ ":"
                       +:+ json.appendString q +:+ "}")))
    with (json.fields (S turns)
            (json.appendString "query" +:+ ":" +:+ json.appendString q +:+ "}")
            (mkInputs t (Query v0))).
  rewrite (fields_step turns _ "query" (json.appendString q +:+ "}"));
    [|by apply decodeString_appendString].
  change (String.eqb "query" "table") with false.
  change (String.eqb "query" "query") with true. cbv iota.
  rewrite decodeString_appendString by done. reflexivity.
Qed.

Lemma Unmarshal_encodeInputs (v : Inputs) :
  validInputs v → json.Unmarshal (json.encodeInputs v) = Ok v.
Proof.
  destruct v as [t q]. intros [Ht Hq]. simpl in Ht, Hq.
  unfold json.encodeInputs. cbn [Table Query].
  set (s1 := json.appendString "table" +:+ ":" +:+ json.encodeMap t +:+ ","
               +:+ json.appendString "query" +:+ ":" +:+ json.appendString q +:+ "}").
  change ("{" +:+ s1) with (String "{" s1).
  change (json.Unmarshal (String "{" s1))
    with (match json.fields (String.length s1) s1 (mkInputs ∅ EmptyString) with
          | Some (v, EmptyString) => Ok v
          | _ => Err DecodeError
          end).
  assert (∃ turns, String.length s1 = S (S turns)) as [turns ->].
  { unfold s1. rewrite appendString_cons, !append_cons. simpl.
    rewrite !length_append. simpl. eexists. reflexivity. }
  unfold s1. by rewrite fields_encodeInputs.
Qed.

End JsonFacts.

(** ** The round trip *)

(** C9, counterexample.  A query in Latin-1 whose last byte is 0xE9 is
    written with the escape of U+FFFD in the place of that byte, and read
    back with the three bytes of U+FFFD there.  The query that ends with the
    byte 0xE8 is written to the same body, so that no reader of the body can
    return both. *)
Lemma C9_invalid_utf8_not_restored :
  json.Marshal invalidQuery = Ok (json.encodeInputs invalidQuery)
  ∧ json.Unmarshal (json.encodeInputs invalidQuery)
    = Ok {| Table := ∅; Query := "caf" +:+ utf8.RuneError |}
  ∧ Query {| Table := ∅; Query := "caf" +:+ utf8.RuneError |} ≠ Query invalidQuery
  ∧ json.Marshal invalidQuery = json.Marshal otherInvalidQuery
  ∧ Query invalidQuery ≠ Query otherInvalidQuery.
Proof.
  split; [reflexivity|]. split; [vm_compute; reflexivity|].
  split; [vm_compute; discriminate|].
  split; [vm_compute; reflexivity|vm_compute; discriminate].
Qed.

(** C9, amended.  For every table and query whose column names, cells and
    query string are valid UTF-8, reading back the body that [json.Marshal]
    writes gives the same table and the same query. *)
Theorem C9_payload_round_trip (v : Inputs) (Hvalid : validInputs v) :
  ∃ data : string, json.Marshal v = Ok data ∧ json.Unmarshal data = Ok v.
Proof.
  exists (json.encodeInputs v). split; [reflexivity|].
  by apply Unmarshal_encodeInputs.
Qed.

Lemma C9_payload_round_trip_witness :
  ∃ data : string,
    json.Marshal samplePayload = Ok data ∧ json.Unmarshal data = Ok samplePayload.
Proof.
  apply (C9_payload_round_trip samplePayload). split; [|reflexivity].
  apply map_Forall_insert_2; [by repeat constructor|].
  apply map_Forall_insert_2; [by repeat constructor|].
  apply map_Forall_empty.
Defined.

(** * More on the table loader *)

Section LoaderMore.

Implicit Types (rows records : list (list string)) (header record row : list string).

Lemma column_full_lookup j rows k row :
  Forall (λ record, j < length record) rows →
  rows !! k = Some row →
  column j rows !! k = row !! j.
Proof.
  intros Hall. revert k. induction Hall as [|record rows Hj _ IH]; intros k Hk; [done|].
  simpl. destruct (lookup_lt_is_Some_2 record j Hj) as [x Hx]. rewrite Hx.
  destruct k as [|k]; simpl in Hk |- *.
  - injection Hk as <-. by rewrite Hx.
  - by apply IH.
Qed.

(** The records of a successful read have the positive width of the first. *)
Lemma ReadAll_width data header rows :
  csv.ReadAll (csv.NewReader data) = Ok (header :: rows) →
  0 < length header ∧ Forall (λ row, length row = length header) rows.
Proof.
  unfold csv.ReadAll, csv.NewReader. simpl. intros H.
  apply readRecords_inv in H as [n Hn]; [|by left].
  destruct Hn as [[_ [=]]|[Hpos Hn]].
  apply Forall_cons in Hn as [Hheader Hrows]. split; [lia|].
  eapply Forall_impl; [exact Hrows|]. intros row Hrow. simpl in Hrow. lia.
Qed.


(** A column of a loaded table holds, for each data row in order, the field
    of the row at the position of the column. *)
Lemma loaded_column data header rows name j :
  csv.ReadAll (csv.NewReader data) = Ok (header :: rows) →
  header !! j = Some name →
  (∀ j', j < j' → header !! j' ≠ Some name) →
  CsvToSlice data = Ok (rangeHeader rows 0 header ∅)
  ∧ rangeHeader rows 0 header ∅ !! name = Some (column j rows)
  ∧ length (column j rows) = length rows
  ∧ ∀ k row, rows !! k = Some row → column j rows !! k = row !! j.
Proof.
  intros Hread Hj Hlast.
  destruct (ReadAll_width _ _ _ Hread) as [_ Hwidth].
  assert (Forall (λ record, j < length record) rows) as Hfull.
  { eapply Forall_impl; [exact Hwidth|]. intros row Hrow. simpl in Hrow.
    rewrite Hrow. by eapply lookup_lt_Some. }
  split; [by apply CsvToSlice_records|]. split; [|split].
  - by rewrite (rangeHeader_last rows header 0 ∅ name j Hj Hlast).
  - by apply column_length_full.
  - intros k row Hk. by apply column_full_lookup.
Qed.

Lemma NoDup_lookup_last header name j :
  NoDup header → header !! j = Some name →
  ∀ j', j < j' → header !! j' ≠ Some name.
Proof.
  intros Hnodup Hj j' Hlt Hj'.
  pose proof (NoDup_lookup header j j' name Hnodup Hj Hj'). lia.
Qed.

Lemma size_list_to_set_le (l : list string) :
  size (list_to_set l : gset string) ≤ length l.
Proof.
  induction l as [|x l IH]; [done|].
  cbn [list_to_set foldr length].
  rewrite size_union_alt, size_singleton.
  pose proof (subseteq_size (list_to_set l ∖ {[x]} : gset string) (list_to_set l)
                (subseteq_difference_l _ _ _ (reflexivity _))).
  lia.
Qed.

(** *** The text of a table *)

Lemma readSlices_CRLF s rest :
  oneLine s = true →
  csv.readSlices (s +:+ String csv.CR (String csv.LF rest))
  = (s +:+ String csv.CR (String csv.LF EmptyString)) :: csv.readSlices rest.
Proof.
  induction s as [|c s IH]; intros Hs; [reflexivity|].
  cbn [oneLine] in Hs. apply andb_prop in Hs as [Hc Hs].
  apply negb_true_iff, orb_false_elim in Hc as [Hlf _].
  rewrite !(append_cons c). cbn [csv.readSlices]. rewrite Hlf, IH by done.
  reflexivity.
Qed.

Lemma normLine_CRLF s :
  oneLine s = true →
  csv.normLine (s +:+ String csv.CR (String csv.LF EmptyString)) = line s.
Proof.
  unfold line. induction s as [|c s IH]; intros Hs; [reflexivity|].
  cbn [oneLine] in Hs. apply andb_prop in Hs as [Hc Hs].
  rewrite !(append_cons c). cbn [csv.normLine]. rewrite <- IH by done.
  destruct s as [|d s]; [reflexivity|].
  rewrite !(append_cons d). destruct s; reflexivity.
Qed.

Lemma readLines_renderCRLF records :
  Forall (Forall (λ cell : string, plain cell = true)) records →
  csv.readLines (renderCRLF records) = renderRecord <$> records.
Proof.
  unfold csv.readLines.
  induction 1 as [|record records Hrecord _ IH]; [reflexivity|].
  change (renderCRLF (record :: records))
    with (join "," record
            +:+ String csv.CR (String csv.LF (renderCRLF records))).
  rewrite (readSlices_CRLF (join "," record)) by (by apply oneLine_join).
  rewrite !fmap_cons, normLine_CRLF by (by apply oneLine_join).
  f_equal. exact IH.
Qed.

End LoaderMore.

(** X1.  In a loaded table the column of a name holds one cell for each data
    row, in row order: the field of the row at the last header position that
    carries the name. *)
Theorem X1_cells_by_position (data : string) (header : list string)
    (rows : list (list string)) (name : string) (j : nat)
    (Hread : csv.ReadAll (csv.NewReader data) = Ok (header :: rows))
    (Hj : header !! j = Some name)
    (Hlast : ∀ j', j < j' → header !! j' ≠ Some name) :
  ∃ (table : gmap string (list string)) (cells : list string),
    CsvToSlice data = Ok table
    ∧ table !! name = Some cells
    ∧ length cells = length rows
    ∧ ∀ (k : nat) (row : list string),
        rows !! k = Some row →
        ∃ cell : string, row !! j = Some cell ∧ cells !! k = Some cell.
Proof.
  destruct (loaded_column data header rows name j Hread Hj Hlast)
    as (Hload & Hcol & Hlen & Hcells).
  exists (rangeHeader rows 0 header ∅), (column j rows).
  repeat split; [done..|].
  intros k row Hk. specialize (Hcells k row Hk).
  destruct (ReadAll_width _ _ _ Hread) as [_ Hwidth].
  rewrite Forall_forall in Hwidth.
  assert (row ∈ rows) as Hin by (apply list_elem_of_lookup; eauto).
  specialize (Hwidth row Hin). simpl in Hwidth.
  destruct (lookup_lt_is_Some_2 row j) as [cell Hcell].
  { rewrite Hwidth. by eapply lookup_lt_Some. }
  exists cell. split; [done|]. by rewrite Hcells.
Qed.

Lemma X1_cells_by_position_witness :
  ∃ (table : gmap string (list string)) (cells : list string),
    CsvToSlice twiceCsv = Ok table
    ∧ table !! "a"%string = Some cells
    ∧ length cells = 2
    ∧ ∀ (k : nat) (row : list string),
        [["1"; "2"; "3"]; ["4"; "5"; "6"]]%string !! k = Some row →
        ∃ cell : string, row !! 2 = Some cell ∧ cells !! k = Some cell.
Proof.
  apply (X1_cells_by_position twiceCsv ["a"; "b"; "a"]%string
           [["1"; "2"; "3"]; ["4"; "5"; "6"]]%string "a"%string 2).
  - vm_compute. reflexivity.
  - reflexivity.
  - intros [|[|[|j]]] Hj; try lia; simpl; discriminate.
Defined.

(** X2.  A rectangular table of plain cells whose header names are distinct
    and in which no record is written as an empty line (none is a single
    empty cell) is loaded back from its text: the keys are the header names,
    and the column of the name at position [j] holds the fields at position
    [j] of the data rows, in order. *)
Theorem X2_text_round_trip (header : list string) (rows : list (list string))
    (Hplain : Forall plainRecord (header :: rows))
    (Hrect : Forall (λ row : list string, length row = length header) rows)
    (Hnames : NoDup header) :
  ∃ table : gmap string (list string),
    CsvToSlice (render (header :: rows)) = Ok table
    ∧ dom table = list_to_set header
    ∧ ∀ (j : nat) (name : string),
        header !! j = Some name →
        ∃ cells : list string,
          table !! name = Some cells
          ∧ length cells = length rows
          ∧ ∀ (k : nat) (row : list string),
              rows !! k = Some row → cells !! k = row !! j.
Proof.
  pose proof (ReadAll_render header rows Hplain Hrect) as Hread.
  exists (rangeHeader rows 0 header ∅).
  split; [by apply CsvToSlice_records|]. split.
  - by rewrite rangeHeader_dom, dom_empty_L, (right_id_L ∅ (∪)).
  - intros j name Hj.
    destruct (loaded_column _ header rows name j Hread Hj
                (NoDup_lookup_last header name j Hnames Hj))
      as (_ & Hcol & Hlen & Hcells).
    exists (column j rows). by repeat split.
Qed.

Lemma X2_text_round_trip_witness :
  ∃ table : gmap string (list string),
    CsvToSlice (render [["city"; "kwh"]; ["A"; "10"]; ["B"; "20"]]%string) = Ok table
    ∧ dom table = list_to_set ["city"; "kwh"]%string
    ∧ ∀ (j : nat) (name : string),
        ["city"; "kwh"]%string !! j = Some name →
        ∃ cells : list string,
          table !! name = Some cells
          ∧ length cells = 2
          ∧ ∀ (k : nat) (row : list string),
              [["A"; "10"]; ["B"; "20"]]%string !! k = Some row →
              cells !! k = row !! j.
Proof.
  apply (X2_text_round_trip ["city"; "kwh"]%string [["A"; "10"]; ["B"; "20"]]%string).
  - repeat constructor; discriminate.
  - repeat constructor.
  - apply NoDup_cons. split; [|apply NoDup_singleton].
    rewrite list_elem_of_singleton. discriminate.
Defined.



(** X4.  A table that [CsvToSlice] returns has at least one column, and no
    more columns than the header has fields. *)
Theorem X4_table_not_empty (data : string) (table : gmap string (list string))
    (Hok : CsvToSlice data = Ok table) :
  ∃ header rows,
    csv.ReadAll (csv.NewReader data) = Ok (header :: rows)
    ∧ 1 ≤ size table ≤ length header.
Proof.
  apply CsvToSlice_inv in Hok as (header & rows & Hread & ->).
  exists header, rows. split; [done|].
  destruct (ReadAll_width _ _ _ Hread) as [Hpos _].
  assert (dom (rangeHeader rows 0 header ∅) = list_to_set header) as Hdom
    by (by rewrite rangeHeader_dom, dom_empty_L, (right_id_L ∅ (∪))).
  rewrite <- size_dom, Hdom. split.
  - destruct header as [|name header]; [simpl in Hpos; lia|].
    simpl. rewrite size_union_alt, size_singleton. lia.
  - apply size_list_to_set_le.
Qed.

Lemma X4_table_not_empty_witness :
  ∃ header rows,
    csv.ReadAll (csv.NewReader twiceCsv) = Ok (header :: rows)
    ∧ 1 ≤ size (<["a" := ["3"; "6"]]> (<["b" := ["2"; "5"]]> ∅)
                  : gmap string (list string))%string ≤ length header.
Proof.
  apply (X4_table_not_empty twiceCsv). vm_compute. reflexivity.
Defined.

(** X5.  A text of plain cells whose lines end with a carriage return and a
    line feed is loaded like the text whose lines end with a line feed. *)
Theorem X5_crlf_line_ends (records : list (list string))
    (Hplain : Forall (Forall (λ cell : string, plain cell = true)) records) :
  CsvToSlice (renderCRLF records) = CsvToSlice (render records).
Proof.
  unfold CsvToSlice, csv.ReadAll, csv.NewReader. cbn [csv.r csv.FieldsPerRecord].
  by rewrite readLines_renderCRLF, readLines_render.
Qed.

Lemma X5_crlf_line_ends_witness :
  CsvToSlice (renderCRLF [["city"; "kwh"]; ["A"; "10"]; ["B"; "20"]]%string)
  = CsvToSlice (render [["city"; "kwh"]; ["A"; "10"]; ["B"; "20"]]%string).
Proof.
  apply X5_crlf_line_ends. repeat constructor.
Defined.

(** * More on the inference client *)

Section ClientMore.

Variable c : AIModelConnector.
Variable json_Unmarshal : string → option (gmap string jsonValue).
Variable json_Decode : string → option Response.
Variable outOfRange : float64 → Z.

Local Abbreviation endpoint := (Client c).
Local Abbreviation loop := (retryLoop c json_Unmarshal json_Decode outOfRange).
Local Abbreviation run := (ConnectAIModel c json_Unmarshal json_Decode outOfRange).
Local Abbreviation estimate := (estimatedTimeOf json_Unmarshal).
Local Abbreviation turns := (retriedTurns outOfRange).
Local Abbreviation finish := (ends json_Unmarshal json_Decode).
Local Abbreviation again := (retryable json_Unmarshal).

Lemma sends_app (tr1 tr2 : list event) : sends (tr1 ++ tr2) = sends tr1 ++ sends tr2.
Proof. unfold sends. apply flat_map_app. Qed.

Lemma sleeps_app (tr1 tr2 : list event) : sleeps (tr1 ++ tr2) = sleeps tr1 ++ sleeps tr2.
Proof. unfold sleeps. apply flat_map_app. Qed.

Lemma sends_retriedTurns data token (ts : list float64) : ∀ i,
  sends (turns data token i ts) = wireAt data token <$> seq i (length ts).
Proof.
  induction ts as [|t ts IH]; intros i; [done|].
  cbn [retriedTurns length seq]. rewrite fmap_cons, <- IH. reflexivity.
Qed.

Lemma sleeps_retriedTurns data token (ts : list float64) : ∀ i,
  sleeps (turns data token i ts) = sleepFor outOfRange <$> ts.
Proof.
  induction ts as [|t ts IH]; intros i; [done|].
  cbn [retriedTurns]. rewrite fmap_cons, <- (IH (S i)). reflexivity.
Qed.

(** How the call that a turn makes decides the turn. *)
Lemma turn_cases (rt : http.RoundTrip) :
  (∃ t, again rt t) ∨ (∃ res, finish rt res).
Proof.
  destruct rt as [msg|resp]; [right; eexists; constructor|].
  destruct (Z.eqb_spec (http.StatusCode resp) http.StatusOK) as [H200|H200].
  { right. destruct (json_Decode (http.RespBody resp)) eqn:Hd;
      eexists; [by eapply ends_decoded|by eapply ends_undecodable]. }
  destruct (Z.eqb_spec (http.StatusCode resp) http.StatusServiceUnavailable)
    as [H503|H503]; [|right; eexists; by eapply ends_status].
  destruct (estimate (http.RespBody resp)) as [t|] eqn:Ht.
  - left. exists t, resp. done.
  - right. eexists. by eapply ends_unavailable.
Qed.

Lemma retryLoop_again data token left i trace t :
  again (endpoint i (wireAt data token i)) t →
  loop (S left) i (requestAt data token i) trace
  = loop left (S i) (requestAt data token (S i))
      (trace ++ turns data token i [t]).
Proof.
  intros (resp & Hrt & H503 & Ht). rewrite retryLoop_last, Hrt, H503, Ht.
  change ((http.StatusServiceUnavailable =? http.StatusOK)%Z) with false.
  change ((http.StatusServiceUnavailable =? http.StatusServiceUnavailable)%Z) with true.
  cbv iota. by rewrite <- app_assoc.
Qed.

Lemma retryLoop_finish data token left i trace res :
  finish (endpoint i (wireAt data token i)) res →
  loop (S left) i (requestAt data token i) trace
  = (res, trace ++ [Sent (wireAt data token i)]).
Proof.
  intros Hends. rewrite retryLoop_last.
  destruct Hends as [msg|resp r H200 Hd|resp H200 Hd|resp H503 Ht|resp H200 H503].
  - reflexivity.
  - rewrite H200, Hd. reflexivity.
  - rewrite H200, Hd. reflexivity.
  - rewrite H503, Ht. reflexivity.
  - destruct (Z.eqb_spec (http.StatusCode resp) http.StatusOK); [done|].
    destruct (Z.eqb_spec (http.StatusCode resp) http.StatusServiceUnavailable); done.
Qed.

(** A run of the loop: retried turns, then either a call that ends it or the
    end of the budget. *)
Lemma retryLoop_anatomy data token : ∀ left i trace,
  ∃ ts : list float64,
    (∀ j t, ts !! j = Some t → again (endpoint (i + j) (wireAt data token (i + j))) t)
    ∧ ((length ts = left
        ∧ loop left i (requestAt data token i) trace
          = (Err MaxRetriesReached, trace ++ turns data token i ts))
       ∨ (length ts < left
          ∧ ∃ res,
              finish (endpoint (i + length ts) (wireAt data token (i + length ts))) res
              ∧ loop left i (requestAt data token i) trace
                = (res, trace ++ turns data token i ts
                          ++ [Sent (wireAt data token (i + length ts))]))).
Proof.
  induction left as [|left IH]; intros i trace.
  - exists []. split; [done|]. left. split; [done|]. simpl. by rewrite app_nil_r.
  - destruct (turn_cases (endpoint i (wireAt data token i))) as [[t Ht]|[res Hres]].
    + rewrite (retryLoop_again _ _ _ _ _ t Ht).
      destruct (IH (S i) (trace ++ turns data token i [t])) as (ts & Hts & Hrun).
      exists (t :: ts). split.
      * intros [|j] t' Hj; simpl in Hj.
        -- injection Hj as <-. by rewrite Nat.add_0_r.
        -- replace (i + S j) with (S i + j) by lia. by apply Hts.
      * cbn [length]. replace (i + S (length ts)) with (S i + length ts) by lia.
        destruct Hrun as [[Hlen ->]|(Hlen & res & Hres & ->)].
        -- left. split; [lia|]. by rewrite <- app_assoc.
        -- right. split; [lia|]. exists res. split; [done|].
           by rewrite <- !app_assoc.
    + exists []. split; [done|]. right. cbn [length]. rewrite Nat.add_0_r.
      split; [lia|]. exists res. split; [done|].
      by rewrite (retryLoop_finish _ _ _ _ _ res Hres).
Qed.


Lemma retryLoop_turns data token (ts : list float64) : ∀ left i trace,
  (∀ j t, ts !! j = Some t → again (endpoint (i + j) (wireAt data token (i + j))) t) →
  length ts ≤ left →
  loop left i (requestAt data token i) trace
  = loop (left - length ts) (i + length ts) (requestAt data token (i + length ts))
      (trace ++ turns data token i ts).
Proof.
  induction ts as [|t ts IH]; intros left i trace Hts Hle.
  - simpl. by rewrite Nat.sub_0_r, Nat.add_0_r, app_nil_r.
  - destruct left as [|left]; [simpl in Hle; lia|].
    pose proof (Hts 0 t eq_refl) as Ht. rewrite Nat.add_0_r in Ht.
    rewrite (retryLoop_again _ _ _ _ _ t Ht), (IH left (S i)).
    + cbn [length]. replace (S i + length ts) with (i + S (length ts)) by lia.
      replace (S left - S (length ts)) with (left - length ts) by lia.
      by rewrite <- app_assoc.
    + intros j t' Hj. replace (S i + j) with (i + S j) by lia. by apply Hts.
    + simpl in Hle. lia.
Qed.

Lemma ends_not_max (rt : http.RoundTrip) (res : Result Response) :
  finish rt res → res ≠ Err MaxRetriesReached.
Proof. by destruct 1. Qed.

Lemma run_anatomy payload token :
  ∃ ts : list float64,
    (∀ j t, ts !! j = Some t →
       again (endpoint j (wireAt (json.encodeInputs payload) token j)) t)
    ∧ ((length ts = maxRetries
        ∧ run payload token
          = (Err MaxRetriesReached, turns (json.encodeInputs payload) token 0 ts))
       ∨ (length ts < maxRetries
          ∧ ∃ res,
              finish (endpoint (length ts)
                        (wireAt (json.encodeInputs payload) token (length ts))) res
              ∧ run payload token
                = (res, turns (json.encodeInputs payload) token 0 ts
                          ++ [Sent (wireAt (json.encodeInputs payload) token
                                      (length ts))]))).
Proof.
  rewrite ConnectAIModel_loop.
  destruct (retryLoop_anatomy (json.encodeInputs payload) token maxRetries 0 [])
    as (ts & Hts & Hrun).
  exists ts. split; [exact Hts|exact Hrun].
Qed.

(** X6.  Whatever the endpoint answers, a call of [ConnectAIModel] sends at
    least one request and at most ten, and sleeps at most once per
    request. *)
Theorem X6_request_budget (payload : Inputs) (token : string) :
  1 ≤ length (sends (run payload token).2) ≤ 10
  ∧ length (sleeps (run payload token).2) ≤ length (sends (run payload token).2).
Proof.
  destruct (run_anatomy payload token)
    as (ts & _ & [[Hlen ->]|(Hlen & res & _ & ->)]); cbn [snd];
    unfold maxRetries in Hlen.
  - rewrite sends_retriedTurns, sleeps_retriedTurns, !length_fmap, length_seq. lia.
  - rewrite sends_app, sleeps_app, sends_retriedTurns, sleeps_retriedTurns.
    rewrite !length_app, !length_fmap, length_seq. simpl. lia.
Qed.

(** X7.  [ConnectAIModel] returns a response only when a call is answered
    with status 200 and a body that decodes to that response; it has then
    sent no request after that call, and slept once for each call before
    it. *)
Theorem X7_answer_comes_from_200 (payload : Inputs) (token : string)
    (aiResponse : Response)
    (Hok : (run payload token).1 = Ok aiResponse) :
  ∃ (k : nat) (resp : http.Response),
    k < 10
    ∧ endpoint k (wireAt (json.encodeInputs payload) token k) = http.Answered resp
    ∧ http.StatusCode resp = http.StatusOK
    ∧ json_Decode (http.RespBody resp) = Some aiResponse
    ∧ length (sends (run payload token).2) = S k
    ∧ length (sleeps (run payload token).2) = k.
Proof.
  destruct (run_anatomy payload token)
    as (ts & _ & [[Hlen Hrun]|(Hlen & res & Hres & Hrun)]);
    rewrite Hrun in Hok |- *; cbn [fst snd] in Hok |- *; [discriminate|].
  subst res. inversion Hres as [|resp r H200 Hd Hrt| | |]; subst.
  exists (length ts), resp. unfold maxRetries in Hlen.
  rewrite sends_app, sleeps_app, sends_retriedTurns, sleeps_retriedTurns.
  rewrite !length_app, !length_fmap, length_seq. simpl.
  repeat split; [lia|done..|lia|lia].
Qed.

(** X8.  Every request that a call of [ConnectAIModel] has [Client.Do]
    send is a POST to the model's URL, with the bearer token in its
    Authorization header, the JSON content type, and a content length that
    is the length of the encoded payload; the body of the first request is
    the encoded payload. *)
Theorem X8_requests_sent (payload : Inputs) (token : string) (n : nat) (w : http.Wire)
    (Hsent : sends (run payload token).2 !! n = Some w) :
  http.wMethod w = "POST"%string
  ∧ http.wURL w = url
  ∧ http.wHeader w !! "Authorization"%string = Some ("Bearer " +:+ token)%string
  ∧ http.wHeader w !! "Content-Type"%string = Some "application/json"%string
  ∧ http.wContentLength w = Z.of_nat (String.length (json.encodeInputs payload))
  ∧ (n = 0 → http.wBody w = json.encodeInputs payload).
Proof.
  rewrite ConnectAIModel_loop in Hsent.
  destruct (retryLoop_sends c json_Unmarshal json_Decode outOfRange
              (json.encodeInputs payload) token maxRetries 0 [])
    as (m & _ & Hsends).
  rewrite Hsends in Hsent. simpl in Hsent. rewrite list_lookup_fmap in Hsent.
  destruct (seq 0 m !! n) as [j|] eqn:Hj; [|discriminate].
  injection Hsent as <-. apply lookup_seq in Hj as [-> _].
  repeat split. by intros ->.
Qed.

(** X9.  A call answered with status 200 ends the run at once, after any
    number of retried calls: the result is the decoded body, or the decoding
    error when the body does not decode, and no further request is sent. *)
Theorem X9_status_200_ends_the_run (payload : Inputs) (token : string)
    (ts : list float64) (last : http.Response)
    (Hk : length ts < maxRetries)
    (Hts : ∀ j t, ts !! j = Some t →
             again (endpoint j (wireAt (json.encodeInputs payload) token j)) t)
    (Hlast : endpoint (length ts)
               (wireAt (json.encodeInputs payload) token (length ts))
             = http.Answered last)
    (H200 : http.StatusCode last = http.StatusOK) :
  run payload token
  = (match json_Decode (http.RespBody last) with
     | Some aiResponse => Ok aiResponse
     | None => Err DecodeError
     end,
     turns (json.encodeInputs payload) token 0 ts
       ++ [Sent (wireAt (json.encodeInputs payload) token (length ts))]).
Proof.
  rewrite ConnectAIModel_loop.
  rewrite (retryLoop_turns _ token ts maxRetries 0 []); [|exact Hts|lia].
  replace (maxRetries - length ts) with (S (maxRetries - S (length ts))) by lia.
  cbn [app plus]. apply retryLoop_finish. rewrite Hlast.
  destruct (json_Decode (http.RespBody last)) eqn:Hd;
    [by apply ends_decoded|by apply ends_undecodable].
Qed.

(** X10.  [ConnectAIModel] reports "max retries reached" only after ten
    calls that were each answered with a 503 holding an estimated time, and
    ten sleeps. *)
Theorem X10_max_retries_means_ten (payload : Inputs) (token : string)
    (Hmax : (run payload token).1 = Err MaxRetriesReached) :
  length (sends (run payload token).2) = 10
  ∧ length (sleeps (run payload token).2) = 10
  ∧ ∀ i, i < 10 →
      ∃ t, again (endpoint i (wireAt (json.encodeInputs payload) token i)) t.
Proof.
  destruct (run_anatomy payload token)
    as (ts & Hts & [[Hlen Hrun]|(Hlen & res & Hres & Hrun)]);
    rewrite Hrun in Hmax |- *; cbn [fst snd] in Hmax |- *.
  - unfold maxRetries in Hlen.
    rewrite sends_retriedTurns, sleeps_retriedTurns, !length_fmap, length_seq.
    repeat split; [done..|].
    intros i Hi. destruct (lookup_lt_is_Some_2 ts i) as [t Ht]; [lia|].
    exists t. by apply Hts.
  - by apply ends_not_max in Hres.
Qed.

(** X11.  For an estimated time whose whole part is at most 9223372036
    seconds in size, the argument of [time.Sleep] is that whole part in
    seconds: the fraction is dropped, and a time that is not positive makes
    [Sleep] return at once. *)
Theorem X11_sleep_whole_seconds (estimatedTime : float64) (z : Z)
    (Htrunc : time.truncate estimatedTime = Some z)
    (Hz : (- 9223372036 ≤ z ≤ 9223372036)%Z) :
  sleepFor outOfRange estimatedTime = (z * time.Second)%Z
  ∧ time.Sleep (sleepFor outOfRange estimatedTime) = (Z.max 0 z * time.Second)%Z.
Proof.
  assert (sleepFor outOfRange estimatedTime = (z * time.Second)%Z) as ->.
  { unfold sleepFor, Duration. rewrite Htrunc.
    destruct (Z.leb_spec (- 2 ^ 63) z); [|lia].
    destruct (Z.ltb_spec z (2 ^ 63)); [|lia]. simpl.
    unfold time.int64, time.Second. rewrite Z.mod_small by lia. lia. }
  split; [done|]. unfold time.Sleep, time.Second. lia.
Qed.

(** X12.  For an estimated time whose whole part lies between 9223372037
    and 18446744073 seconds, the multiplication by [time.Second] overflows:
    the argument of [time.Sleep] is negative and [Sleep] returns at once. *)
Theorem X12_long_sleep_overflows (estimatedTime : float64) (z : Z)
    (Htrunc : time.truncate estimatedTime = Some z)
    (Hz : (9223372037 ≤ z ≤ 18446744073)%Z) :
  sleepFor outOfRange estimatedTime = (z * time.Second - 2 ^ 64)%Z
  ∧ (sleepFor outOfRange estimatedTime < 0)%Z
  ∧ time.Sleep (sleepFor outOfRange estimatedTime) = 0%Z.
Proof.
  assert (sleepFor outOfRange estimatedTime = (z * time.Second - 2 ^ 64)%Z) as ->.
  { unfold sleepFor, Duration. rewrite Htrunc.
    destruct (Z.leb_spec (- 2 ^ 63) z); [|lia].
    destruct (Z.ltb_spec z (2 ^ 63)); [|lia]. simpl.
    unfold time.int64, time.Second.
    replace (z * 1000000000 + 2 ^ 63)%Z
      with ((z * 1000000000 - 2 ^ 63) + 1 * 2 ^ 64)%Z by lia.
    rewrite Z.mod_add by lia. rewrite Z.mod_small by lia. lia. }
  unfold time.Sleep, time.Second. lia.
Qed.

End ClientMore.

Lemma X7_answer_comes_from_200_witness :
  ∃ (k : nat) (resp : http.Response),
    k < 10
    ∧ loadingOnce k (wireAt (json.encodeInputs samplePayload) "hf_token" k)
      = http.Answered resp
    ∧ http.StatusCode resp = http.StatusOK
    ∧ sampleDecode (http.RespBody resp) = Some sampleAnswer
    ∧ length (sends (ConnectAIModel (mkConnector loadingOnce) sampleUnmarshal
                       sampleDecode amd64 samplePayload "hf_token").2) = S k
    ∧ length (sleeps (ConnectAIModel (mkConnector loadingOnce) sampleUnmarshal
                        sampleDecode amd64 samplePayload "hf_token").2) = k.
Proof.
  apply (X7_answer_comes_from_200 (mkConnector loadingOnce) sampleUnmarshal
           sampleDecode amd64 samplePayload "hf_token" sampleAnswer).
  vm_compute. reflexivity.
Defined.

Lemma X8_requests_sent_witness :
  http.wMethod (wireAt (json.encodeInputs samplePayload) "hf_token" 0) = "POST"%string
  ∧ http.wURL (wireAt (json.encodeInputs samplePayload) "hf_token" 0) = url
  ∧ http.wHeader (wireAt (json.encodeInputs samplePayload) "hf_token" 0)
      !! "Authorization"%string
    = Some "Bearer hf_token"%string
  ∧ http.wHeader (wireAt (json.encodeInputs samplePayload) "hf_token" 0)
      !! "Content-Type"%string
    = Some "application/json"%string
  ∧ http.wContentLength (wireAt (json.encodeInputs samplePayload) "hf_token" 0)
    = Z.of_nat (String.length (json.encodeInputs samplePayload))
  ∧ (0 = 0 →
     http.wBody (wireAt (json.encodeInputs samplePayload) "hf_token" 0)
     = json.encodeInputs samplePayload).
Proof.
  apply (X8_requests_sent (mkConnector loadingOnce) sampleUnmarshal sampleDecode
           amd64 samplePayload "hf_token" 0).
  vm_compute. reflexivity.
Defined.

Lemma X9_status_200_ends_the_run_witness :
  ConnectAIModel (mkConnector loadingOnce) sampleUnmarshal sampleDecode amd64
    samplePayload "hf_token"
  = (Ok sampleAnswer,
     retriedTurns amd64 (json.encodeInputs samplePayload) "hf_token" 0 [centisecond]
       ++ [Sent (wireAt (json.encodeInputs samplePayload) "hf_token" 1)]).
Proof.
  apply (X9_status_200_ends_the_run (mkConnector loadingOnce) sampleUnmarshal
           sampleDecode amd64 samplePayload "hf_token" [centisecond] answered).
  - unfold maxRetries. simpl. lia.
  - intros [|j] t Hj; [|discriminate]. injection Hj as <-.
    exists loading. by repeat split.
  - reflexivity.
  - reflexivity.
Defined.

Lemma X10_max_retries_means_ten_witness :
  length (sends (ConnectAIModel (mkConnector alwaysLoading) sampleUnmarshal
                   sampleDecode amd64 samplePayload "hf_token").2) = 10
  ∧ length (sleeps (ConnectAIModel (mkConnector alwaysLoading) sampleUnmarshal
                      sampleDecode amd64 samplePayload "hf_token").2) = 10
  ∧ ∀ i, i < 10 →
      ∃ t, retryable sampleUnmarshal
             (alwaysLoading i (wireAt (json.encodeInputs samplePayload) "hf_token" i)) t.
Proof.
  apply (X10_max_retries_means_ten (mkConnector alwaysLoading) sampleUnmarshal
           sampleDecode amd64 samplePayload "hf_token").
  vm_compute. reflexivity.
Defined.

Lemma X11_sleep_whole_seconds_witness :
  sleepFor amd64 twoAndAHalf = (2 * time.Second)%Z
  ∧ time.Sleep (sleepFor amd64 twoAndAHalf) = (Z.max 0 2 * time.Second)%Z.
Proof.
  apply (X11_sleep_whole_seconds amd64 twoAndAHalf 2); [reflexivity|lia].
Defined.

Lemma X12_long_sleep_overflows_witness :
  sleepFor amd64 tenBillion = (10000000000 * time.Second - 2 ^ 64)%Z
  ∧ (sleepFor amd64 tenBillion < 0)%Z
  ∧ time.Sleep (sleepFor amd64 tenBillion) = 0%Z.
Proof.
  apply (X12_long_sleep_overflows amd64 tenBillion 10000000000); [reflexivity|lia].
Defined.

(** * Properties of the program *)

Section ProgramFacts.

Variable json_Unmarshal : string → option (gmap string jsonValue).
Variable json_Decode : string → option Response.
Variable outOfRange : float64 → Z.
Variable unicodeLower : string → string.

Local Abbreviation lower := (strings_ToLower unicodeLower).
Local Abbreviation query_of := (ask json_Unmarshal json_Decode outOfRange).
Local Abbreviation session := (chat json_Unmarshal json_Decode outOfRange unicodeLower).
Local Abbreviation program := (main json_Unmarshal json_Decode outOfRange unicodeLower).
Local Abbreviation connect :=
  (λ c, ConnectAIModel c json_Unmarshal json_Decode outOfRange).

Lemma calls_app (t1 t2 : list action) : calls (t1 ++ t2) = calls t1 ++ calls t2.
Proof. unfold calls. by rewrite flat_map_app. Qed.

Lemma requests_app (t1 t2 : list action) :
  requests (t1 ++ t2) = requests t1 ++ requests t2.
Proof. unfold requests. by rewrite flat_map_app. Qed.

Lemma calls_ask table token client done query :
  calls (query_of table token client done query)
  = [({| Table := table; Query := query |}, token)].
Proof.
  unfold ask. destruct (ConnectAIModel _ _ _ _ _ _) as [[response|err] events];
    reflexivity.
Qed.

Lemma requests_ask table token client done query :
  requests (query_of table token client done query)
  = sends (connect {| Client := λ n, client (done + n) |}
             {| Table := table; Query := query |} token).2.
Proof.
  unfold ask. destruct (ConnectAIModel _ _ _ _ _ _) as [[response|err] events];
    cbn; by rewrite app_nil_r.
Qed.

Lemma sends_run_shape (c : AIModelConnector) payload token :
  ∃ m, 1 ≤ m ≤ 10
    ∧ sends (connect c payload token).2
      = wireAt (json.encodeInputs payload) token <$> seq 0 m.
Proof.
  destruct (retryLoop_sends c json_Unmarshal json_Decode outOfRange
              (json.encodeInputs payload) token maxRetries 0 [])
    as (m & Hm & Hsends).
  rewrite <- ConnectAIModel_loop in Hsends. simpl in Hsends.
  exists m. split; [|exact Hsends]. unfold maxRetries in Hm. split; [|done].
  destruct (run_anatomy c json_Unmarshal json_Decode outOfRange payload token)
    as (ts & _ & [[Hlen Hrun]|(Hlen & res & _ & Hrun)]);
    rewrite Hrun in Hsends; cbn [snd] in Hsends;
    apply (f_equal length) in Hsends;
    rewrite ?sends_app, sends_retriedTurns, ?length_app, !length_fmap, !length_seq
      in Hsends; unfold maxRetries in *; simpl in Hsends; lia.
Qed.

Lemma lower_empty : lower EmptyString ≠ "exit"%string.
Proof. discriminate. Qed.

(** The loop ends with status 0 or not at all. *)
Lemma chat_status table token client : ∀ turns tokens trace,
  (session turns table token client tokens trace).2 = Exit 0
  ∨ (session turns table token client tokens trace).2 = Running.
Proof.
  induction turns as [|turns IH]; intros tokens trace; simpl; [by right|].
  destruct (scan tokens) as [query tokens'].
  destruct (String.eqb (lower query) "exit"); [by left|apply IH].
Qed.

(** The loop up to the line that ends it. *)
Lemma chat_exit table token client (last : string) (rest : list string) :
  lower last = "exit"%string →
  ∀ (queries : list string) (turns : nat) (trace : list action),
    Forall (λ query, lower query ≠ "exit"%string) queries →
    length queries < turns →
    ∃ more,
      session turns table token client (queries ++ last :: rest) trace
      = (trace ++ more, Exit 0)
      ∧ calls more = (λ query, ({| Table := table; Query := query |}, token))
                       <$> queries.
Proof.
  intros Hlast. induction queries as [|query queries IH]; intros turns trace Hq Hlen;
    (destruct turns as [|turns]; [simpl in Hlen; lia|]); cbn [chat app scan].
  - apply String.eqb_eq in Hlast. rewrite Hlast. by exists [Printed "> "%string].
  - apply Forall_cons in Hq as [Hquery Hq]. apply String.eqb_neq in Hquery.
    rewrite Hquery.
    edestruct (IH turns) as (more & -> & Hcalls); [done|simpl in Hlen; lia|].
    eexists. split; [by rewrite <- !app_assoc|].
    cbn [app]. change (calls (Printed ?t :: ?l)) with (calls l).
    by rewrite calls_app, calls_ask, Hcalls.
Qed.

(** The loop on lines none of which ends it. *)
Lemma chat_running table token client : ∀ (turns : nat) (tokens : list string)
    (trace : list action),
  Forall (λ query, lower query ≠ "exit"%string) tokens →
  ∃ more,
    session turns table token client tokens trace = (trace ++ more, Running)
    ∧ calls more = (λ query, ({| Table := table; Query := query |}, token))
                     <$> take turns (tokens ++ replicate turns EmptyString)
    ∧ turns ≤ length (requests more).
Proof.
  induction turns as [|turns IH]; intros tokens trace Hq; cbn [chat].
  - exists []. rewrite app_nil_r. repeat split. simpl. lia.
  - assert (∃ query tokens',
              scan tokens = (query, tokens')
              ∧ lower query ≠ "exit"%string
              ∧ Forall (λ query, lower query ≠ "exit"%string) tokens'
              ∧ take (S turns) (tokens ++ replicate (S turns) EmptyString)
                = query :: take turns (tokens' ++ replicate turns EmptyString))
      as (query & tokens' & -> & Hquery & Hq' & ->).
    { destruct tokens as [|query tokens'].
      - exists EmptyString, []. repeat split; [apply lower_empty|done].
      - apply Forall_cons in Hq as [Hquery Hq]. exists query, tokens'.
        repeat split; [done..|]. cbn [app take]. f_equal.
        rewrite replicate_S_end, app_assoc.
        rewrite take_app_le; [done|]. rewrite length_app, length_replicate. lia. }
    apply String.eqb_neq in Hquery. rewrite Hquery.
    edestruct (IH tokens') as (more & -> & Hcalls & Hreq); [done|].
    eexists. split; [by rewrite <- !app_assoc|].
    cbn [app]. change (calls (Printed ?t :: ?l)) with (calls l).
    change (requests (Printed ?t :: ?l)) with (requests l).
    rewrite calls_app, calls_ask, Hcalls, requests_app, requests_ask, length_app.
    split; [done|].
    destruct (sends_run_shape
                {| Client := λ n, client (length (requests (trace ++ [Printed "> "%string])) + n) |}
                {| Table := table; Query := query |} token) as (m & Hm & ->).
    rewrite length_fmap, length_seq. lia.
Qed.

(** Every request of the loop is one of [ConnectAIModel] under the token of
    the program. *)
Lemma chat_requests table token client (P : http.Wire → Prop) :
  (∀ data i, P (wireAt data token i)) →
  ∀ turns tokens trace,
    Forall P (requests trace) →
    Forall P (requests (session turns table token client tokens trace).1).
Proof.
  intros HP. induction turns as [|turns IH]; intros tokens trace Htrace;
    cbn [chat]; [done|].
  assert (Forall P (requests (trace ++ [Printed "> "%string]))) as Hprompt.
  { rewrite requests_app. simpl. by rewrite app_nil_r. }
  destruct (scan tokens) as [query tokens'].
  destruct (String.eqb (lower query) "exit"); [done|].
  apply IH. rewrite requests_app, requests_ask. apply Forall_app. split; [done|].
  destruct (sends_run_shape
              {| Client := λ n, client (length (requests (trace ++ [Printed "> "%string])) + n) |}
              {| Table := table; Query := query |} token) as (m & _ & ->).
  apply Forall_fmap, Forall_forall. intros i _. apply HP.
Qed.

(** X13.  The program ends with exit status 1 only from one of the four
    checks it makes before its loop, and has then printed nothing and sent
    no request: once the loop has started, no line that is typed and no
    answer of the network makes the program fail. *)
Theorem X13_failure_only_at_startup (turns : nat) (w : World) :
  (program turns w).2 = Exit 1
  ↔ ∃ f, startup w = inr f ∧ (program turns w).1 = [Fatal f].
Proof.
  unfold main. destruct (startup w) as [[table token]|f].
  - split.
    + intros Hexit.
      destruct (chat_status table token (network w) turns (stdin w) banner)
        as [H|H]; rewrite H in Hexit; discriminate.
    + intros (f & Hf & _). discriminate.
  - split; [|done]. intros _. by exists f.
Qed.


(** X15.  When the lines typed are some queries, none of which is "exit" in
    lower case, and then a line that is, the program ends with exit status
    0, whatever the network answers: it has called [ConnectAIModel] once for
    each query, in order, with the table of the file and that query, and
    for no line after the one that ends it. *)
Theorem X15_exit_line_ends_the_program (turns : nat) (w : World)
    (table : gmap string (list string)) (token : string)
    (queries : list string) (last : string) (rest : list string)
    (Hstart : startup w = inl (table, token))
    (Hstdin : stdin w = queries ++ last :: rest)
    (Hqueries : Forall (λ query, lower query ≠ "exit"%string) queries)
    (Hlast : lower last = "exit"%string)
    (Hturns : length queries < turns) :
  (program turns w).2 = Exit 0
  ∧ calls (program turns w).1
    = (λ query, ({| Table := table; Query := query |}, token)) <$> queries.
Proof.
  unfold main. rewrite Hstart, Hstdin.
  destruct (chat_exit table token (network w) last rest Hlast queries turns banner
              Hqueries Hturns) as (more & -> & Hcalls).
  cbn [fst snd]. split; [done|].
  change banner with ([] ++ banner) at 1. by rewrite <- app_assoc, calls_app, calls_app.
Qed.

(** X16.  When no line typed is "exit" in lower case, the program never
    ends: after any number of turns it is still in its loop, and it has
    called [ConnectAIModel] in every turn, with the lines typed and, once
    they are used up, with the empty query, sending at least one request
    each time. *)
Theorem X16_end_of_input_does_not_stop (turns : nat) (w : World)
    (table : gmap string (list string)) (token : string)
    (Hstart : startup w = inl (table, token))
    (Hstdin : Forall (λ query, lower query ≠ "exit"%string) (stdin w)) :
  (program turns w).2 = Running
  ∧ calls (program turns w).1
    = (λ query, ({| Table := table; Query := query |}, token))
        <$> take turns (stdin w ++ replicate turns EmptyString)
  ∧ turns ≤ length (requests (program turns w).1).
Proof.
  unfold main. rewrite Hstart.
  destruct (chat_running table token (network w) turns (stdin w) banner Hstdin)
    as (more & -> & Hcalls & Hreq).
  cbn [fst snd]. split; [done|].
  change banner with ([] ++ banner) at 1 2.
  rewrite <- !app_assoc, calls_app, requests_app. split; [exact Hcalls|exact Hreq].
Qed.

(** X17.  Every request that the program sends is a POST to the model's URL
    under the bearer token of the program, and that token is the value of
    HUGGINGFACE_TOKEN in the environment of the process when the variable
    is set there, and its value in the file .env otherwise. *)
Theorem X17_requests_carry_the_token (turns : nat) (w : World)
    (table : gmap string (list string)) (token : string) (wire : http.Wire)
    (Hstart : startup w = inl (table, token))
    (Hsent : wire ∈ requests (program turns w).1) :
  http.wMethod wire = "POST"%string
  ∧ http.wURL wire = url
  ∧ http.wHeader wire !! "Authorization"%string = Some ("Bearer " +:+ token)%string
  ∧ token = match environ w !! tokenVariable with
            | Some value => value
            | None => default EmptyString (dotenv w ≫= (.!! tokenVariable))
            end.
Proof.
  split; [|split; [|split]].
  1-3: unfold main in Hsent; rewrite Hstart in Hsent;
    pose proof (chat_requests table token (network w)
                  (λ wire, http.wMethod wire = "POST"%string
                           ∧ http.wURL wire = url
                           ∧ http.wHeader wire !! "Authorization"%string
                             = Some ("Bearer " +:+ token)%string)
                  ltac:(by repeat split) turns (stdin w) banner ltac:(constructor))
      as Hall;
    rewrite Forall_forall in Hall; apply Hall in Hsent; tauto.
  unfold startup, godotenv_Load in Hstart.
  destruct (dotenv w) as [vars|]; [|discriminate].
  destruct (String.eqb _ _); [discriminate|].
  destruct (ioutil_ReadFile _ _); [|discriminate].
  destruct (CsvToSlice _); [|discriminate].
  injection Hstart as _ <-. unfold os_Getenv. rewrite lookup_union.
  destruct (environ w !! tokenVariable) as [value|]; simpl.
  - by destruct (vars !! tokenVariable).
  - by destruct (vars !! tokenVariable).
Qed.

End ProgramFacts.


Lemma X15_exit_line_ends_the_program_witness :
  (main sampleUnmarshal sampleDecode amd64 asciiOnly 5
     (home None cityCsv ["total kwh"; "Exit"; "more"]%string loadingOnce)).2 = Exit 0
  ∧ calls (main sampleUnmarshal sampleDecode amd64 asciiOnly 5
             (home None cityCsv ["total kwh"; "Exit"; "more"]%string loadingOnce)).1
    = (λ query, ({| Table := cityTable; Query := query |}, "hf_token"%string))
        <$> ["total kwh"%string].
Proof.
  apply (X15_exit_line_ends_the_program sampleUnmarshal sampleDecode amd64 asciiOnly 5
           (home None cityCsv ["total kwh"; "Exit"; "more"]%string loadingOnce)
           cityTable "hf_token" ["total kwh"%string] "Exit" ["more"%string]).
  - vm_compute. reflexivity.
  - reflexivity.
  - repeat constructor. vm_compute. discriminate.
  - vm_compute. reflexivity.
  - simpl. lia.
Defined.

Lemma X16_end_of_input_does_not_stop_witness :
  (main sampleUnmarshal sampleDecode amd64 asciiOnly 3
     (home None cityCsv ["total kwh"%string] loadingOnce)).2 = Running
  ∧ calls (main sampleUnmarshal sampleDecode amd64 asciiOnly 3
             (home None cityCsv ["total kwh"%string] loadingOnce)).1
    = (λ query, ({| Table := cityTable; Query := query |}, "hf_token"%string))
        <$> take 3 (["total kwh"%string] ++ replicate 3 EmptyString)
  ∧ 3 ≤ length (requests (main sampleUnmarshal sampleDecode amd64 asciiOnly 3
                            (home None cityCsv ["total kwh"%string] loadingOnce)).1).
Proof.
  apply (X16_end_of_input_does_not_stop sampleUnmarshal sampleDecode amd64 asciiOnly 3
           (home None cityCsv ["total kwh"%string] loadingOnce) cityTable "hf_token").
  - vm_compute. reflexivity.
  - repeat constructor. vm_compute. discriminate.
Defined.

Lemma X17_requests_carry_the_token_witness :
  http.wMethod (wireAt (json.encodeInputs {| Table := cityTable; Query := "total kwh" |})
                  "hf_exported" 0) = "POST"%string
  ∧ http.wURL (wireAt (json.encodeInputs {| Table := cityTable; Query := "total kwh" |})
                 "hf_exported" 0) = url
  ∧ http.wHeader (wireAt (json.encodeInputs {| Table := cityTable; Query := "total kwh" |})
                    "hf_exported" 0) !! "Authorization"%string
    = Some "Bearer hf_exported"%string
  ∧ "hf_exported"%string
    = match environ (home (Some "hf_exported"%string) cityCsv
                       ["total kwh"; "exit"]%string loadingOnce) !! tokenVariable with
      | Some value => value
      | None =>
          default EmptyString
            (dotenv (home (Some "hf_exported"%string) cityCsv
                       ["total kwh"; "exit"]%string loadingOnce)
               ≫= (.!! tokenVariable))
      end.
Proof.
  apply (X17_requests_carry_the_token sampleUnmarshal sampleDecode amd64 asciiOnly 2
           (home (Some "hf_exported"%string) cityCsv ["total kwh"; "exit"]%string
              loadingOnce)
           cityTable "hf_exported").
  - vm_compute. reflexivity.
  - vm_compute. apply list_elem_of_here.
Defined.
